(** * Campaigns resolvers

    A shallow embedding of the campaigns GraphQL resolvers
    ([enterprise/internal/campaigns/resolvers]): the changeset listing
    filter, the diff-stat aggregate over a patch set, the memoised
    file-diff pagination and the patch application used for previews.

    Go values are modelled as follows.  An [int32] is a [Z] whose
    arithmetic is wrapped with [Int32.wrap]; a [string] is a Rocq [string]
    (a sequence of bytes); a slice is a [list]; a pointer that may be nil
    is an [option]; a run-time panic (index or slice out of range) is the
    [None] of an [option] result; a Go [(value, error)] pair coming from a
    collaborator is a [result].  Packages that are not part of the
    resolvers (the store, the repository database, the diff parser, the
    enum validators) are interfaces, given as type classes. *)

From Stdlib Require Import ZArith String Ascii List Lia Bool.
From stdpp Require Import base list gmap strings.

Local Open Scope Z_scope.

(* ===================================================================== *)
(** * Part I: the model                                                   *)
(* ===================================================================== *)

(** ** Machine integers *)

Module Int32.

Definition min : Z := -2147483648.
Definition max : Z := 2147483647.

(** Two's complement wrap-around of a mathematical integer into [int32]. *)
Definition wrap (z : Z) : Z := (z + 2147483648) mod 4294967296 - 2147483648.

Definition InRange (z : Z) : Prop := min <= z <= max.

End Int32.

Arguments Int32.wrap z : simpl never.

(** ** Errors *)

(** What [strconv] puts in [NumError.Err]. *)
Inductive NumErrKind : Type := ErrSyntax | ErrRange | ErrBase | ErrBitSize.

(** The error values the resolvers create or compare against. *)
Inductive error : Type :=
| ErrIDIsZero                                   (* errors.New("invalid node id") *)
| ErrNoResults                                  (* ee.ErrNoResults *)
| EOF                                           (* io.EOF *)
| ErrNew (msg : string)                         (* errors.New(msg) *)
| ErrPatchNoDiffStat (patchID : Z)              (* fmt.Errorf("patch %d has no diff stat", p.ID) *)
| ErrNum (fn : string) (num : string) (kind : NumErrKind)   (* *strconv.NumError *)
| ErrDiffParse (msg : string)                   (* a go-diff parse error *)
| ErrCollab (notFound : bool) (msg : string).   (* any other collaborator error *)

(** [errcode.IsNotFound]: the error says of itself that it is a not-found
    error. *)
Definition IsNotFound (e : error) : bool :=
  match e with
  | ErrCollab nf _ => nf
  | _ => false
  end.

Inductive result (A : Type) : Type :=
| Ok (a : A)
| Err (e : error).
Arguments Ok {A} a.
Arguments Err {A} e.

(** ** Package [strings] *)

Module strings.

Definition newline : ascii := ascii_of_nat 10.

(** [strings.Split(s, "\n")]: the pieces between the separators; a string
    without separator is its own single piece, so the result is never
    empty. *)
Fixpoint SplitLines (s : string) : list string :=
  match s with
  | EmptyString => [EmptyString]
  | String c s' =>
      if Ascii.eqb c newline then EmptyString :: SplitLines s'
      else match SplitLines s' with
           | piece :: pieces => String c piece :: pieces
           | [] => [String c EmptyString]
           end
  end.

(** [strings.Join(a, "\n")]. *)
Fixpoint JoinLines (a : list string) : string :=
  match a with
  | [] => EmptyString
  | [x] => x
  | x :: rest => x +:+ String newline (JoinLines rest)
  end.

(** [strings.HasPrefix(s, string(c))] for a one-byte prefix. *)
Definition HasPrefixByte (s : string) (c : ascii) : bool :=
  match s with
  | String c' _ => Ascii.eqb c' c
  | EmptyString => false
  end.

(** [s[1:]] on a string known to be non-empty. *)
Definition tail (s : string) : string :=
  match s with
  | String _ s' => s'
  | EmptyString => EmptyString
  end.

End strings.

(** ** Slices *)

Module slice.

(** [a[i]] with an [int32] index converted to [int]: panics out of range. *)
Definition index {A} (a : list A) (i : Z) : option A :=
  if i <? 0 then None else a !! Z.to_nat i.

(** [a[lo:hi]] for a slice whose capacity is its length (as returned by
    [strings.Split]): panics unless [0 <= lo <= hi <= len(a)]. *)
Definition sub {A} (a : list A) (lo hi : Z) : option (list A) :=
  if (0 <=? lo) && (lo <=? hi) && (hi <=? Z.of_nat (length a))
  then Some (take (Z.to_nat (hi - lo)) (drop (Z.to_nat lo) a))
  else None.

(** [a[lo:]]: panics unless [0 <= lo <= len(a)]. *)
Definition from {A} (a : list A) (lo : Z) : option (list A) :=
  sub a lo (Z.of_nat (length a)).

End slice.

(** ** Package [strconv] *)

Module strconv.

Definition byte (c : ascii) : Z := Z.of_N (N_of_ascii c).

(** [lower(c) = c | ('x' - 'X')]. *)
Definition lower (c : Z) : Z := Z.lor c 32.

Definition maxUint64 : Z := 18446744073709551615.

(** What [underscoreOK] remembers of the last byte: ['^'] beginning,
    ['0'] digit, ['_'] underscore, ['!'] none of these. *)
Inductive Saw : Type := SawStart | SawDigit | SawUnderscore | SawOther.

Fixpoint underscoreLoop (hex : bool) (saw : Saw) (s : string) : bool :=
  match s with
  | EmptyString =>
      match saw with SawUnderscore => false | _ => true end
  | String ch s' =>
      let c := byte ch in
      if ((48 <=? c) && (c <=? 57))
         || (hex && (97 <=? lower c) && (lower c <=? 102))
      then underscoreLoop hex SawDigit s'
      else if c =? 95 then
        match saw with
        | SawDigit => underscoreLoop hex SawUnderscore s'
        | _ => false
        end
      else
        match saw with
        | SawUnderscore => false
        | _ => underscoreLoop hex SawOther s'
        end
  end.

(** [underscoreOK(s)]: underscores appear only between digits or between
    a base prefix and a digit. *)
Definition underscoreOK (s : string) : bool :=
  let s :=
    match s with
    | String ch s' => if (byte ch =? 45) || (byte ch =? 43) then s' else s
    | EmptyString => s
    end in
  match s with
  | String c0 (String c1 s') =>
      if (byte c0 =? 48)
         && ((lower (byte c1) =? 98) || (lower (byte c1) =? 111)
             || (lower (byte c1) =? 120))
      then underscoreLoop (lower (byte c1) =? 120) SawDigit s'
      else underscoreLoop false SawStart s
  | _ => underscoreLoop false SawStart s
  end.

(** The digit loop of [ParseUint].  [n] is a [uint64]; as [n < cutoff]
    when it is multiplied, the product does not wrap, and the sum wraps
    exactly when it exceeds [maxUint64 >= maxVal], so the two range tests
    are those of the mathematical value.  The result is [inl] of the value
    and the [underscores] flag, or [inr] of the value returned with the
    error. *)
Fixpoint digitsLoop (base : Z) (base0 : bool) (cutoff maxVal : Z)
    (s : string) (n : Z) (underscores : bool) : (Z * bool) + (Z * NumErrKind) :=
  match s with
  | EmptyString => inl (n, underscores)
  | String ch s' =>
      let c := byte ch in
      if (c =? 95) && base0 then digitsLoop base base0 cutoff maxVal s' n true
      else
        let d :=
          if (48 <=? c) && (c <=? 57) then Some (c - 48)
          else if (97 <=? lower c) && (lower c <=? 122) then Some (lower c - 97 + 10)
          else None in
        match d with
        | None => inr (0, ErrSyntax)
        | Some d =>
            if base <=? d then inr (0, ErrSyntax)
            else if cutoff <=? n then inr (maxVal, ErrRange)
            else
              let n1 := n * base + d in
              if maxVal <? n1 then inr (maxVal, ErrRange)
              else digitsLoop base base0 cutoff maxVal s' n1 underscores
        end
  end.

(** [strconv.ParseUint(s, base, bitSize)]: the value and the kind of the
    error, if any. *)
Definition ParseUint (s : string) (base bitSize : Z) : Z * option NumErrKind :=
  match s with
  | EmptyString => (0, Some ErrSyntax)
  | String c0 rest0 =>
      let base0 := base =? 0 in
      let s0 := s in
      let prefixed : option (Z * string) :=
        if (2 <=? base) && (base <=? 36) then Some (base, s)
        else if base =? 0 then
          if byte c0 =? 48 then
            match rest0 with
            | String c1 (String c2 rest2) =>
                if lower (byte c1) =? 98 then Some (2, String c2 rest2)
                else if lower (byte c1) =? 111 then Some (8, String c2 rest2)
                else if lower (byte c1) =? 120 then Some (16, String c2 rest2)
                else Some (8, rest0)
            | _ => Some (8, rest0)
            end
          else Some (10, s)
        else None in
      match prefixed with
      | None => (0, Some ErrBase)
      | Some (base, s) =>
          let bitSize := if bitSize =? 0 then 64 else bitSize in
          if (bitSize <? 0) || (64 <? bitSize) then (0, Some ErrBitSize)
          else
            let cutoff := maxUint64 / base + 1 in
            let maxVal := 2 ^ bitSize - 1 in
            match digitsLoop base base0 cutoff maxVal s 0 false with
            | inr (v, k) => (v, Some k)
            | inl (n, underscores) =>
                if underscores && negb (underscoreOK s0) then (0, Some ErrSyntax)
                else (n, None)
            end
      end
  end.

(** [strconv.ParseInt(s, base, bitSize)]. *)
Definition ParseInt (s : string) (base bitSize : Z) : Z * option error :=
  match s with
  | EmptyString => (0, Some (ErrNum "ParseInt" s ErrSyntax))
  | String c0 rest =>
      let s0 := s in
      let '(neg, s) :=
        if byte c0 =? 43 then (false, rest)
        else if byte c0 =? 45 then (true, rest)
        else (false, s) in
      let '(un, uerr) := ParseUint s base bitSize in
      let rejected : option NumErrKind :=
        match uerr with
        | Some ErrRange | None => None
        | Some k => Some k
        end in
      match rejected with
      | Some k => (0, Some (ErrNum "ParseInt" s0 k))
      | None =>
          let bitSize := if bitSize =? 0 then 64 else bitSize in
          let cutoff := 2 ^ (bitSize - 1) in
          if negb neg && (cutoff <=? un)
          then (cutoff - 1, Some (ErrNum "ParseInt" s0 ErrRange))
          else if neg && (cutoff <? un)
          then (- cutoff, Some (ErrNum "ParseInt" s0 ErrRange))
          else (if neg then - un else un, None)
      end
  end.

(** The decimal digits of a non-negative number, most significant first;
    twenty rounds are enough for any [int64]. *)
Fixpoint formatDigits (fuel : nat) (n : Z) (acc : string) : string :=
  match fuel with
  | O => acc
  | S fuel' =>
      let acc' := String (ascii_of_N (Z.to_N (48 + n mod 10))) acc in
      if n <? 10 then acc' else formatDigits fuel' (n / 10) acc'
  end.

(** [strconv.Itoa(i)]. *)
Definition Itoa (i : Z) : string :=
  if i <? 0 then String "-" (formatDigits 20 (- i) EmptyString)
  else formatDigits 20 i EmptyString.

End strconv.

(** ** Data *)

(** [diff.Hunk] of go-diff: the original-file position of the hunk and its
    body, the hunk's lines with their one-byte markers. *)
Module Hunk.
Record t : Type := mk {
  OrigStartLine : Z;      (* int32 *)
  OrigLines : Z;          (* int32 *)
  NewStartLine : Z;       (* int32 *)
  NewLines : Z;           (* int32 *)
  Body : string           (* []byte *)
}.
End Hunk.

(** [diff.FileDiff] of go-diff. *)
Module FileDiff.
Record t : Type := mk {
  OrigName : string;
  NewName : string;
  Hunks : list Hunk.t
}.
End FileDiff.

(** [diff.Stat] of go-diff: three [int32] counters. *)
Module Stat.
Record t : Type := mk {
  Added : Z;
  Changed : Z;
  Deleted : Z
}.
End Stat.

(** [graphqlbackend.DiffStat].

    Modelled from the spec: the type and its [AddStat] are not among the
    sources; the spec gives three integers with an additive combination
    rule.  The counters are [int32], so the addition wraps. *)
Module DiffStat.
Record t : Type := mk {
  added : Z;
  changed : Z;
  deleted : Z
}.

Definition zero : t := mk 0 0 0.

Definition AddStat (d : t) (s : Stat.t) : t :=
  mk (Int32.wrap (added d + Stat.Added s))
     (Int32.wrap (changed d + Stat.Changed s))
     (Int32.wrap (deleted d + Stat.Deleted s)).
End DiffStat.

(** [campaigns.Patch].

    Modelled from the spec: the struct and its [DiffStat()] method are not
    among the sources; the spec gives a patch an identity, a target
    repository, a unified diff text and an optional precomputed diff
    statistic, whose absence means that it was not computed. *)
Module Patch.
Record t : Type := mk {
  ID : Z;                        (* int64 *)
  RepoID : Z;                    (* api.RepoID *)
  Diff : string;
  DiffStat : option Stat.t       (* what p.DiffStat() returns, with its ok *)
}.
End Patch.

(** [types.Repo], of which the resolvers read the [ID]. *)
Module Repo.
Record t : Type := mk {
  ID : Z;                        (* api.RepoID *)
  Name : string
}.
End Repo.

(** [campaigns.Changeset].

    Modelled from the spec: the struct is not among the sources; the
    resolvers read its [RepoID] only. *)
Module Changeset.
Record t : Type := mk {
  ID : Z;
  RepoID : Z;
  ExternalID : string;
  ExternalState : string;
  ExternalReviewState : string;
  ExternalCheckState : string;
  CreatedAt : Z;
  UpdatedAt : Z
}.
End Changeset.

(** [graphqlbackend.ListChangesetsArgs]; the three enum types are string
    types. *)
Module ListChangesetsArgs.
Record t : Type := mk {
  First : option Z;              (* *int32 *)
  State : option string;         (* *campaigns.ChangesetState *)
  ReviewState : option string;   (* *campaigns.ChangesetReviewState *)
  CheckState : option string     (* *campaigns.ChangesetCheckState *)
}.
End ListChangesetsArgs.

(** [ee.ListChangesetsOpts], the fields the resolver sets. *)
Module ListChangesetsOpts.
Record t : Type := mk {
  Limit : Z;                           (* int *)
  ExternalState : option string;
  ExternalReviewState : option string;
  ExternalCheckState : option string
}.

(** The zero value of the struct. *)
Definition zero : t := mk 0 None None None.
End ListChangesetsOpts.

(** [ee.ListPatchesOpts]; the resolver touches [NoDiff] only. *)
Module ListPatchesOpts.
Record t : Type := mk {
  PatchSetID : Z;
  Limit : Z;
  NoDiff : bool
}.
End ListPatchesOpts.

(** [graphqlbackend.FileDiffsConnectionArgs]. *)
Module FileDiffsConnectionArgs.
Record t : Type := mk {
  First : option Z;              (* *int32 *)
  After : option string          (* *string *)
}.
End FileDiffsConnectionArgs.

(** [graphqlbackend.SyncChangesetArgs]; a [graphql.ID] is a string. *)
Module SyncChangesetArgs.
Record t : Type := mk {
  Changeset : string
}.
End SyncChangesetArgs.

(** ** Collaborators *)

(** The [Valid()] methods of the three enum types of package [campaigns]:
    membership in a fixed set of strings. *)
Class ChangesetEnums : Type := {
  ChangesetState_Valid : string -> bool;
  ChangesetReviewState_Valid : string -> bool;
  ChangesetCheckState_Valid : string -> bool
}.

(** What the multi-file diff reader of go-diff yields on a diff text, one
    [ReadFile] call after the other: file diffs, then [io.EOF] or a parse
    error. *)
Inductive DiffStream : Type :=
| AtEOF
| Malformed (msg : string)
| NextFile (fd : FileDiff.t) (rest : DiffStream).

(** [diff.NewMultiFileDiffReader(strings.NewReader(text))]. *)
Class DiffParser : Type := {
  NewMultiFileDiffReader : string -> DiffStream
}.

(** The store, the repository database, the configuration, the
    authorisation check, the id codec and the service, as one request
    sees them. *)
Class Backend : Type := {
  (* relay.UnmarshalSpec(id, &n): the decoded number and the error *)
  relay_UnmarshalSpec : string -> Z * option error;
  (* conf.CampaignsReadAccessEnabled() *)
  conf_CampaignsReadAccessEnabled : bool;
  (* backend.CheckCurrentUserIsSiteAdmin(ctx) *)
  backend_CheckCurrentUserIsSiteAdmin : option error;
  (* store.GetChangeset(ctx, ee.GetChangesetOpts{ID: id}) *)
  store_GetChangeset : Z -> result Changeset.t;
  (* store.ListPatches(ctx, opts), without the cursor *)
  store_ListPatches : ListPatchesOpts.t -> result (list Patch.t);
  (* db.Repos.Get(ctx, id): filters by the viewer's permissions *)
  db_Repos_Get : Z -> result Repo.t;
  (* db.Repos.GetByIDs(ctx, ids...): filters by the viewer's permissions *)
  db_Repos_GetByIDs : list Z -> result (list Repo.t);
  (* svc.EnqueueChangesetSync(ctx, id) *)
  svc_EnqueueChangesetSync : Z -> option error
}.

(** ** [listChangesetOptsFromArgs] *)

Section ListChangesets.
Context `{ChangesetEnums}.

Import ListChangesetsArgs.

(** The three results are [opts], [optsSafe] and [err]. *)
Definition listChangesetOptsFromArgs (args : option ListChangesetsArgs.t)
  : ListChangesetsOpts.t * bool * option error :=
  let opts := ListChangesetsOpts.zero in
  match args with
  | None => (opts, true, None)
  | Some args =>
      let safe := true in
      let opts :=
        match First args with
        | Some first =>
            ListChangesetsOpts.mk first
              (ListChangesetsOpts.ExternalState opts)
              (ListChangesetsOpts.ExternalReviewState opts)
              (ListChangesetsOpts.ExternalCheckState opts)
        | None => opts
        end in
      let afterState : result ListChangesetsOpts.t :=
        match State args with
        | Some state =>
            if negb (ChangesetState_Valid state)
            then Err (ErrNew "changeset state not valid")
            else Ok (ListChangesetsOpts.mk
                       (ListChangesetsOpts.Limit opts)
                       (Some state)
                       (ListChangesetsOpts.ExternalReviewState opts)
                       (ListChangesetsOpts.ExternalCheckState opts))
        | None => Ok opts
        end in
      match afterState with
      | Err e => (opts, false, Some e)
      | Ok opts =>
          let afterReview : result (ListChangesetsOpts.t * bool) :=
            match ReviewState args with
            | Some state =>
                if negb (ChangesetReviewState_Valid state)
                then Err (ErrNew "changeset review state not valid")
                else Ok (ListChangesetsOpts.mk
                           (ListChangesetsOpts.Limit opts)
                           (ListChangesetsOpts.ExternalState opts)
                           (Some state)
                           (ListChangesetsOpts.ExternalCheckState opts),
                         false)
            | None => Ok (opts, safe)
            end in
          match afterReview with
          | Err e => (opts, false, Some e)
          | Ok (opts, safe) =>
              match CheckState args with
              | Some state =>
                  if negb (ChangesetCheckState_Valid state)
                  then (opts, false, Some (ErrNew "changeset check state not valid"))
                  else (ListChangesetsOpts.mk
                          (ListChangesetsOpts.Limit opts)
                          (ListChangesetsOpts.ExternalState opts)
                          (ListChangesetsOpts.ExternalReviewState opts)
                          (Some state),
                        false, None)
              | None => (opts, safe, None)
              end
          end
      end
  end.

End ListChangesets.

(** ** [patchSetDiffStat] *)

Section PatchSetDiffStat.
Context `{Backend}.

(** The loop that fills the map [accessibleRepoIDs]; a
    [map[api.RepoID]struct{}] is a set. *)
Definition collectRepoIDs (accessibleRepos : list Repo.t) : gset Z :=
  foldl (fun ids r => {[ Repo.ID r ]} ∪ ids) ∅ accessibleRepos.

(** The loop over the patches: [continue] on a patch of a repository the
    viewer has no access to, [return] with an error on the first
    accessible patch without diff stat. *)
Fixpoint sumDiffStats (accessibleRepoIDs : gset Z) (patches : list Patch.t)
    (total : DiffStat.t) : result DiffStat.t :=
  match patches with
  | [] => Ok total
  | p :: rest =>
      if decide (Patch.RepoID p ∈ accessibleRepoIDs) then
        match Patch.DiffStat p with
        | None => Err (ErrPatchNoDiffStat (Patch.ID p))
        | Some s => sumDiffStats accessibleRepoIDs rest (DiffStat.AddStat total s)
        end
      else sumDiffStats accessibleRepoIDs rest total
  end.

Definition patchSetDiffStat (opts : ListPatchesOpts.t) : result DiffStat.t :=
  let noDiffOpts :=
    ListPatchesOpts.mk (ListPatchesOpts.PatchSetID opts)
                       (ListPatchesOpts.Limit opts) true in
  match store_ListPatches noDiffOpts with
  | Err e => Err e
  | Ok patches =>
      let repoIDs := map Patch.RepoID patches in
      match db_Repos_GetByIDs repoIDs with
      | Err e => Err e
      | Ok accessibleRepos =>
          let accessibleRepoIDs := collectRepoIDs accessibleRepos in
          sumDiffStats accessibleRepoIDs patches DiffStat.zero
      end
  end.

End PatchSetDiffStat.

(** ** [fileDiffConnectionCompute] *)

(** The variables captured by the closure that [fileDiffConnectionCompute]
    returns.  [onceDone] is the state of the [sync.Once]; [computations]
    is a ghost counter of the runs of the function given to [once.Do]. *)
Module Captured.
Record t : Type := mk {
  onceDone : bool;
  fileDiffs : list FileDiff.t;
  afterIdx : Z;                  (* int32 *)
  hasNextPage : bool;
  err : option error;
  computations : nat
}.

(** The state at the creation of the closure: zero values. *)
Definition init : t := mk false [] 0 false None 0.
End Captured.

(** Where a reader stands: the part of the stream not yet read and the
    number of [ReadFile] calls made (a ghost counter). *)
Module Reader.
Record t : Type := mk {
  unread : DiffStream;
  readCalls : nat
}.
End Reader.

(** [dr.ReadFile()]: the file diff, the error and the reader afterwards. *)
Definition ReadFile (dr : Reader.t) : option FileDiff.t * option error * Reader.t :=
  let calls := S (Reader.readCalls dr) in
  match Reader.unread dr with
  | AtEOF => (None, Some EOF, Reader.mk AtEOF calls)
  | Malformed msg => (None, Some (ErrDiffParse msg), Reader.mk (Malformed msg) calls)
  | NextFile fd rest => (Some fd, None, Reader.mk rest calls)
  end.

(** The [for] loop of the computation, by recursion on the stream the
    reader stands on; each round is one [ReadFile] on a reader that has
    made [calls] calls.  The results are the captured [fileDiffs],
    [hasNextPage] and [err], and the reader as the loop leaves it. *)
Fixpoint readFileDiffs (totalAmount : Z) (unread : DiffStream) (calls : nat)
    (fileDiffs : list FileDiff.t)
  : list FileDiff.t * bool * option error * Reader.t :=
  match unread with
  | AtEOF =>
      (* err == io.EOF: err = nil; break *)
      (fileDiffs, false, None, Reader.mk AtEOF (S calls))
  | Malformed msg =>
      (* err != nil: return *)
      (fileDiffs, false, Some (ErrDiffParse msg), Reader.mk (Malformed msg) (S calls))
  | NextFile fileDiff rest =>
      let fileDiffs := fileDiffs ++ [fileDiff] in
      if Z.of_nat (length fileDiffs) =? totalAmount then
        (* Check for hasNextPage. *)
        match ReadFile (Reader.mk rest (S calls)) with
        | (_, Some EOF, dr) => (fileDiffs, false, None, dr)
        | (_, Some e, dr) => (fileDiffs, false, Some e, dr)
        | (_, None, dr) => (fileDiffs, true, None, dr)
        end
      else readFileDiffs totalAmount rest (S calls) fileDiffs
  end.

Section FileDiffConnection.
Context `{DiffParser}.

Import FileDiffsConnectionArgs.

(** The function given to [once.Do], on the captured variables; it also
    gives the reader it leaves behind, if it made one.  The [err] of the
    cursor parse is a variable of the inner block, so a cursor that does
    not parse ends the computation with the captured [err] untouched. *)
Definition computeOnce (patch : Patch.t) (args : FileDiffsConnectionArgs.t)
    (v : Captured.t) : Captured.t * option Reader.t :=
  let ran := S (Captured.computations v) in
  let parsed : option Z :=
    match After args with
    | Some after =>
        match strconv.ParseInt after 0 32 with
        | (_, Some _) => None
        | (parsedIdx, None) =>
            let parsedIdx := if parsedIdx <? 0 then 0 else parsedIdx in
            Some (Int32.wrap parsedIdx)
        end
    | None => Some (Captured.afterIdx v)
    end in
  match parsed with
  | None =>
      (Captured.mk (Captured.onceDone v) (Captured.fileDiffs v)
         (Captured.afterIdx v) (Captured.hasNextPage v) (Captured.err v) ran,
       None)
  | Some afterIdx =>
      let totalAmount :=
        match First args with
        | Some first => Int32.wrap (afterIdx + first)
        | None => afterIdx
        end in
      let dr := NewMultiFileDiffReader (Patch.Diff patch) in
      let '(fileDiffs, hasNextPage, err, dr) :=
        readFileDiffs totalAmount dr 0 (Captured.fileDiffs v) in
      (Captured.mk (Captured.onceDone v) fileDiffs afterIdx
         (hasNextPage || Captured.hasNextPage v) err ran,
       Some dr)
  end.

(** [once.Do(f)]: [f] runs if the [Once] has not been done. *)
Definition onceDo (f : Captured.t -> Captured.t) (v : Captured.t) : Captured.t :=
  if Captured.onceDone v then v
  else
    let v := f v in
    Captured.mk true (Captured.fileDiffs v) (Captured.afterIdx v)
      (Captured.hasNextPage v) (Captured.err v) (Captured.computations v).

(** One call of the closure that [fileDiffConnectionCompute(patch)]
    returns, on the state of its captured variables: the four results and
    the state afterwards. *)
Definition fileDiffConnectionCompute (patch : Patch.t)
    (args : FileDiffsConnectionArgs.t) (v : Captured.t)
  : (list FileDiff.t * Z * bool * option error) * Captured.t :=
  let v := onceDo (fun v => fst (computeOnce patch args v)) v in
  ((Captured.fileDiffs v, Captured.afterIdx v, Captured.hasNextPage v,
    Captured.err v), v).

(** Calls of one closure, one after the other. *)
Fixpoint callAll (patch : Patch.t) (argss : list FileDiffsConnectionArgs.t)
    (v : Captured.t)
  : list (list FileDiff.t * Z * bool * option error) * Captured.t :=
  match argss with
  | [] => ([], v)
  | args :: rest =>
      let '(r, v) := fileDiffConnectionCompute patch args v in
      let '(rs, v) := callAll patch rest v in
      (r :: rs, v)
  end.

(** *** Paging through a patch *)

(** Modelled from the spec: the resolver that turns the results of the
    computation into a page is not among the sources.  The spec gives the
    page as the file diffs [[cursor, cursor+limit)], and the cursor as a
    non-negative integer offset serialized as a string; the next cursor is
    the offset after the page.  The window is cut out of what the
    computation returns: the file diffs from the cursor on, and of these
    no more than the limit; without limit, all of them. *)
Definition pageWindow (fileDiffs : list FileDiff.t) (afterIdx : Z) (first : option Z)
  : list FileDiff.t :=
  let fromCursor := drop (Z.to_nat afterIdx) fileDiffs in
  match first with
  | Some limit => take (Z.to_nat limit) fromCursor
  | None => fromCursor
  end.

Definition nextCursor (afterIdx : Z) (first : option Z) : string :=
  strconv.Itoa
    (match first with
     | Some first => Int32.wrap (afterIdx + first)
     | None => afterIdx
     end).

Inductive Paged : Type :=
| OutOfFuel
| Failed (e : error)
| Pages (fileDiffs : list FileDiff.t).

(** A client that requests page after page, each from a new resolver with
    the cursor of the page before, until a page has no next page, and puts
    the pages one after the other. *)
Fixpoint requestPages (fuel : nat) (patch : Patch.t) (first : option Z)
    (after : option string) : Paged :=
  match fuel with
  | O => OutOfFuel
  | S fuel' =>
      let args := FileDiffsConnectionArgs.mk first after in
      match fst (fileDiffConnectionCompute patch args Captured.init) with
      | (_, _, _, Some e) => Failed e
      | (fileDiffs, afterIdx, hasNextPage, None) =>
          let page := pageWindow fileDiffs afterIdx first in
          if hasNextPage then
            match requestPages fuel' patch first (Some (nextCursor afterIdx first)) with
            | Pages more => Pages (page ++ more)
            | other => other
            end
          else Pages page
      end
  end.

End FileDiffConnection.

(** ** [applyPatch] *)

(** One round of the loop over the lines of a hunk, on [newContentLines]
    and [lastLine]. *)
Definition applyHunkLine (contentLines : list string)
    (st : list string * Z) (line : string) : option (list string * Z) :=
  let '(newContentLines, lastLine) := st in
  if String.eqb line "" then
    (* Skip *)
    Some (newContentLines, lastLine)
  else if strings.HasPrefixByte line "-" then
    Some (newContentLines, Int32.wrap (lastLine + 1))
  else if strings.HasPrefixByte line "+" then
    Some (newContentLines ++ [strings.tail line], lastLine)
  else
    match slice.index contentLines (Int32.wrap (lastLine - 1)) with
    | None => None
    | Some original => Some (newContentLines ++ [original], Int32.wrap (lastLine + 1))
    end.

Fixpoint applyHunkLines (contentLines : list string) (hunkLines : list string)
    (st : list string * Z) : option (list string * Z) :=
  match hunkLines with
  | [] => Some st
  | line :: rest =>
      match applyHunkLine contentLines st line with
      | None => None
      | Some st => applyHunkLines contentLines rest st
      end
  end.

(** One round of the loop over the hunks: the hole before the hunk, then
    the lines of the hunk. *)
Definition applyHunk (contentLines : list string) (st : list string * Z)
    (hunk : Hunk.t) : option (list string * Z) :=
  let '(newContentLines, lastLine) := st in
  let afterHole : option (list string * Z) :=
    (* Detect holes. *)
    if negb (Hunk.OrigStartLine hunk =? 0)
       && negb (Hunk.OrigStartLine hunk =? lastLine)
    then
      match slice.sub contentLines (Int32.wrap (lastLine - 1))
              (Int32.wrap (Hunk.OrigStartLine hunk - 1)) with
      | None => None
      | Some originalLines =>
          Some (newContentLines ++ originalLines,
                Int32.wrap (lastLine + Int32.wrap (Z.of_nat (length originalLines))))
      end
    else Some (newContentLines, lastLine) in
  match afterHole with
  | None => None
  | Some st => applyHunkLines contentLines (strings.SplitLines (Hunk.Body hunk)) st
  end.

Fixpoint applyHunks (contentLines : list string) (hunks : list Hunk.t)
    (st : list string * Z) : option (list string * Z) :=
  match hunks with
  | [] => Some st
  | hunk :: rest =>
      match applyHunk contentLines st hunk with
      | None => None
      | Some st => applyHunks contentLines rest st
      end
  end.

(** [applyPatch(fileContent, fileDiff)]; [None] is a run-time panic. *)
Definition applyPatch (fileContent : string) (fileDiff : FileDiff.t) : option string :=
  let contentLines := strings.SplitLines fileContent in
  let newContentLines : list string := [] in
  let lastLine := 1 in
  (* Assumes the hunks are sorted by ascending lines. *)
  match applyHunks contentLines (FileDiff.Hunks fileDiff) (newContentLines, lastLine) with
  | None => None
  | Some (newContentLines, lastLine) =>
      (* Append remaining lines from original file. *)
      let origLines := Int32.wrap (Z.of_nat (length contentLines)) in
      if (0 <? origLines) && negb (origLines =? lastLine) then
        match slice.from contentLines (Int32.wrap (lastLine - 1)) with
        | None => None
        | Some remaining => Some (strings.JoinLines (newContentLines ++ remaining))
        end
      else Some (strings.JoinLines newContentLines)
  end.

(** What the hunks ask of the original file.  [origSpan] is the number of
    original lines that the lines of a hunk stand for: the removed lines
    and the context lines. *)
Definition consumesOriginal (line : string) : bool :=
  negb (String.eqb line "") && negb (strings.HasPrefixByte line "+").

Definition origSpan (hunk : Hunk.t) : Z :=
  Z.of_nat (length (filter (fun line => consumesOriginal line = true)
                           (strings.SplitLines (Hunk.Body hunk)))).

(** The hunks are in ascending order of original lines and every original
    line they touch exists: each hunk starts at or after the line [next]
    that follows the lines of the hunk before (a hunk with original start
    zero starts there), and its lines end within the [n] lines of the
    file. *)
Fixpoint hunksFit (n : Z) (next : Z) (hunks : list Hunk.t) : bool :=
  match hunks with
  | [] => true
  | hunk :: rest =>
      let start :=
        if Hunk.OrigStartLine hunk =? 0 then next else Hunk.OrigStartLine hunk in
      (next <=? start) && (start + origSpan hunk <=? n + 1)
      && hunksFit n (start + origSpan hunk) rest
  end.

(** ** [SyncChangeset] and [ChangesetByID] *)

(** What a mutation does to the outside, in order. *)
Inductive Event : Type :=
| TraceNew (family : string)
| TraceSetError (e : option error)
| TraceFinish
| EnqueueChangesetSync (changesetID : Z).

(** The two implementations of the GraphQL interface [Changeset]. *)
Inductive ChangesetResolver : Type :=
| hiddenChangesetResolver (changeset : Changeset.t)
| changesetResolver (changeset : Changeset.t) (preloadedRepo : Repo.t).

(** The methods of the resolver interfaces of package [graphqlbackend]. *)
Module Method.
Inductive t : Type :=
| ID | CreatedAt | UpdatedAt | NextSyncAt | State | Campaigns
| ToExternalChangeset | ToHiddenExternalChangeset
| ExternalID | Title | Body | ExternalURL | ReviewState | CheckState
| Repository | Events | Diff | Head | Base | Labels.
End Method.

(** [type ChangesetResolver interface]: what all changesets have. *)
Definition ChangesetResolver_methods : list Method.t :=
  [Method.ID; Method.CreatedAt; Method.UpdatedAt; Method.NextSyncAt;
   Method.State; Method.Campaigns; Method.ToExternalChangeset;
   Method.ToHiddenExternalChangeset].

(** [type HiddenExternalChangesetResolver interface]: the embedded
    [ChangesetResolver] and nothing else. *)
Definition HiddenExternalChangesetResolver_methods : list Method.t :=
  ChangesetResolver_methods.

(** [type ExternalChangesetResolver interface]: the embedded
    [ChangesetResolver] and the additional data. *)
Definition ExternalChangesetResolver_methods : list Method.t :=
  ChangesetResolver_methods ++
  [Method.ExternalID; Method.Title; Method.Body; Method.ExternalURL;
   Method.ReviewState; Method.CheckState; Method.Repository; Method.Events;
   Method.Diff; Method.Head; Method.Base; Method.Labels].

(** The interface through which a resolver is exposed. *)
Definition exposedMethods (r : ChangesetResolver) : list Method.t :=
  match r with
  | hiddenChangesetResolver _ => HiddenExternalChangesetResolver_methods
  | changesetResolver _ _ => ExternalChangesetResolver_methods
  end.

Section Resolver.
Context `{Backend}.

(** [unmarshalChangesetID], as its siblings [unmarshalPatchID] and
    [unmarshalPatchSetID]. *)
Definition unmarshalChangesetID (id : string) : Z * option error :=
  relay_UnmarshalSpec id.

Definition allowReadAccess : option error :=
  if conf_CampaignsReadAccessEnabled then None
  else
    match backend_CheckCurrentUserIsSiteAdmin with
    | Some err => Some err
    | None => None
    end.

Definition ChangesetByID (id : string) : option ChangesetResolver * option error :=
  match allowReadAccess with
  | Some err => (None, Some err)
  | None =>
      match unmarshalChangesetID id with
      | (_, Some err) => (None, Some err)
      | (changesetID, None) =>
          if changesetID =? 0 then (None, None)
          else
            match store_GetChangeset changesetID with
            | Err ErrNoResults => (None, None)
            | Err err => (None, Some err)
            | Ok changeset =>
                match db_Repos_Get (Changeset.RepoID changeset) with
                | Err err =>
                    if IsNotFound err
                    then (Some (hiddenChangesetResolver changeset), None)
                    else (None, Some err)
                | Ok repo => (Some (changesetResolver changeset repo), None)
                end
            end
      end
  end.

(** The body of [SyncChangeset] between the opening of the trace and the
    deferred calls: the response (an [EmptyResponse] or nil), the error
    and the events. *)
Definition syncChangesetBody (args : SyncChangesetArgs.t)
  : option unit * option error * list Event :=
  match unmarshalChangesetID (SyncChangesetArgs.Changeset args) with
  | (_, Some err) => (None, Some err, [])
  | (changesetID, None) =>
      if changesetID =? 0 then (None, Some ErrIDIsZero, [])
      else
        match svc_EnqueueChangesetSync changesetID with
        | Some err => (None, Some err, [EnqueueChangesetSync changesetID])
        | None => (Some tt, None, [EnqueueChangesetSync changesetID])
        end
  end.

Definition SyncChangeset (args : SyncChangesetArgs.t)
  : option unit * option error * list Event :=
  let '(response, err, events) := syncChangesetBody args in
  (response, err,
   [TraceNew "Resolver.SyncChangeset"] ++ events ++ [TraceSetError err; TraceFinish]).

End Resolver.

(** ** Vocabulary of the properties, and instances for examples *)

(** An instance of the enum validators, with the values that the code
    hosts report. *)
Definition exampleEnums : ChangesetEnums := {|
  ChangesetState_Valid s :=
    existsb (String.eqb s) ["OPEN"; "CLOSED"; "MERGED"; "DELETED"]%string;
  ChangesetReviewState_Valid s :=
    existsb (String.eqb s)
      ["APPROVED"; "CHANGES_REQUESTED"; "PENDING"; "COMMENTED"; "DISMISSED"]%string;
  ChangesetCheckState_Valid s :=
    existsb (String.eqb s) ["UNKNOWN"; "PENDING"; "PASSED"; "FAILED"]%string
|}.

(** An enum value of the arguments that its type does not accept. *)
Definition hasInvalidEnum `{ChangesetEnums} (args : ListChangesetsArgs.t) : Prop :=
  (exists s, ListChangesetsArgs.State args = Some s
             /\ ChangesetState_Valid s = false)
  \/ (exists s, ListChangesetsArgs.ReviewState args = Some s
                /\ ChangesetReviewState_Valid s = false)
  \/ (exists s, ListChangesetsArgs.CheckState args = Some s
                /\ ChangesetCheckState_Valid s = false).

(** The patch is of a repository that the repository database returned
    for the viewer. *)
Definition visibleTo (accessibleRepos : list Repo.t) (p : Patch.t) : Prop :=
  Patch.RepoID p ∈ map Repo.ID accessibleRepos.

#[local] Instance visibleTo_dec accessibleRepos p : Decision (visibleTo accessibleRepos p).
Proof. unfold visibleTo. apply _. Defined.

Definition hasDiffStat (p : Patch.t) : Prop := Patch.DiffStat p <> None.

(** The sum of one counter over a list of stats, in the integers. *)
Definition sumOf (counter : Stat.t -> Z) (stats : list Stat.t) : Z :=
  foldr (fun s acc => counter s + acc) 0 stats.

(** The options with which [patchSetDiffStat] asks the store. *)
Definition withNoDiff (opts : ListPatchesOpts.t) : ListPatchesOpts.t :=
  ListPatchesOpts.mk (ListPatchesOpts.PatchSetID opts) (ListPatchesOpts.Limit opts) true.

(** A backend for examples.  Ids are decimal numbers; the viewer has
    access to the repositories 1 and 3; the store has the changesets 7
    (in repository 2) and 8 (in repository 1) and three patches, of which
    the one in repository 2 has no diff stat. *)
Definition exampleRepos : list Repo.t :=
  [Repo.mk 1 "github.com/a/one"; Repo.mk 3 "github.com/a/three"].

Definition examplePatches : list Patch.t :=
  [Patch.mk 1 1 "" (Some (Stat.mk 1 2 3));
   Patch.mk 2 2 "" None;
   Patch.mk 3 3 "" (Some (Stat.mk 10 20 30))].

Definition exampleChangeset (id repo : Z) : Changeset.t :=
  Changeset.mk id repo "42" "OPEN" "PENDING" "PASSED" 1000 2000.

Definition exampleBackend : Backend := {|
  relay_UnmarshalSpec id := strconv.ParseInt id 10 64;
  conf_CampaignsReadAccessEnabled := true;
  backend_CheckCurrentUserIsSiteAdmin := Some (ErrNew "must be site admin");
  store_GetChangeset id :=
    if id =? 7 then Ok (exampleChangeset 7 2)
    else if id =? 8 then Ok (exampleChangeset 8 1)
    else Err ErrNoResults;
  store_ListPatches opts := Ok examplePatches;
  db_Repos_Get id :=
    match List.find (fun r => Repo.ID r =? id) exampleRepos with
    | Some r => Ok r
    | None => Err (ErrCollab true "repo not found")
    end;
  db_Repos_GetByIDs ids :=
    Ok (List.filter (fun r => existsb (Z.eqb (Repo.ID r)) ids) exampleRepos);
  svc_EnqueueChangesetSync id :=
    if (id =? 7) || (id =? 8) then None
    else Some (ErrCollab true "changeset not found")
|}.

(** The stream of a diff text that parses without error into the file
    diffs [l]. *)
Definition streamOf (l : list FileDiff.t) : DiffStream := foldr NextFile AtEOF l.

(** A parser for examples: every line of the text is the name of one file
    diff without hunks. *)
Definition exampleParser : DiffParser := {|
  NewMultiFileDiffReader text :=
    match text with
    | EmptyString => AtEOF
    | _ => streamOf (map (fun name => FileDiff.mk name name []) (strings.SplitLines text))
    end
|}.

(** The offset from which a request is served: zero without cursor, the
    number of the cursor, clamped at zero, with a cursor that parses. *)
Definition effectiveOffset (args : FileDiffsConnectionArgs.t) : option Z :=
  match FileDiffsConnectionArgs.After args with
  | None => Some 0
  | Some after =>
      match strconv.ParseInt after 0 32 with
      | (z, None) => Some (Z.max 0 z)
      | (_, Some _) => None
      end
  end.

(** The limit of a request; a request without limit adds nothing to the
    offset. *)
Definition limitOf (args : FileDiffsConnectionArgs.t) : Z :=
  match FileDiffsConnectionArgs.First args with
  | Some first => first
  | None => 0
  end.

(** The computation for a request with offset [c] and limit [n] on a patch
    of the file diffs [l] reads [c+n] records, or all of them when there
    are fewer, and then one more; there is a next page exactly when there
    is a record after the first [c+n]; the records after that one stay
    unread. *)
Definition readsOnlyThePage `{DiffParser} (patch : Patch.t)
    (args : FileDiffsConnectionArgs.t) (l : list FileDiff.t) (c n : Z) : Prop :=
  exists v dr,
    computeOnce patch args Captured.init = (v, Some dr)
    /\ Captured.err v = None
    /\ Captured.fileDiffs v = take (Z.to_nat (c + n)) l
    /\ (Captured.hasNextPage v = true <-> c + n < Z.of_nat (length l))
    /\ Reader.unread dr = streamOf (drop (Z.to_nat (c + n + 1)) l)
    /\ Z.of_nat (Reader.readCalls dr) = Z.min (c + n) (Z.of_nat (length l)) + 1.

(** The computation reads the whole stream. *)
Definition readsEverything `{DiffParser} (patch : Patch.t)
    (args : FileDiffsConnectionArgs.t) (l : list FileDiff.t) : Prop :=
  exists v dr,
    computeOnce patch args Captured.init = (v, Some dr)
    /\ Captured.err v = None
    /\ Captured.fileDiffs v = l
    /\ Captured.hasNextPage v = false
    /\ Reader.unread dr = AtEOF
    /\ Reader.readCalls dr = S (length l).

(** A request with the cursor [cursor] has the results of the request for
    the first page, the one without cursor. *)
Definition servedAsPageOne `{DiffParser} (patch : Patch.t) (first : option Z)
    (cursor : string) : Prop :=
  fst (fileDiffConnectionCompute patch
         (FileDiffsConnectionArgs.mk first (Some cursor)) Captured.init)
  = fst (fileDiffConnectionCompute patch
           (FileDiffsConnectionArgs.mk first None) Captured.init).

(** A patch of two file diffs, for the example parser. *)
Definition twoFilePatch : Patch.t :=
  Patch.mk 1 1 (String "a" (String strings.newline (String "b" EmptyString))) None.

Definition twoFiles : list FileDiff.t :=
  [FileDiff.mk "a" "a" []; FileDiff.mk "b" "b" []].

(** What [ExternalChangesetResolver] has beyond the common interface. *)
Definition externalOnlyMethods : list Method.t :=
  [Method.ExternalID; Method.Title; Method.Body; Method.ExternalURL;
   Method.ReviewState; Method.CheckState; Method.Repository; Method.Events;
   Method.Diff; Method.Head; Method.Base; Method.Labels].

Definition isEnqueue (ev : Event) : bool :=
  match ev with
  | EnqueueChangesetSync _ => true
  | _ => false
  end.

(** The number of original lines that a list of hunk lines stands for. *)
Definition spanOf (hunkLines : list string) : Z :=
  Z.of_nat (length (filter (fun line => consumesOriginal line = true) hunkLines)).

(** A file of three lines without final newline and a diff whose one hunk
    replaces the first line and has the second line as context. *)
Definition threeLines : string := strings.JoinLines ["a"; "b"; "c"]%string.

Definition replaceFirstLine : FileDiff.t :=
  FileDiff.mk "f" "f"
    [Hunk.mk 1 2 1 2 (strings.JoinLines ["-a"; "+A"; " b"; ""]%string)].

(** A file of twelve lines and a diff of two hunks: the first replaces
    line 3, the second adds two lines after line 10 and has the lines 10
    to 12 as context. *)
Definition twelveLines : string :=
  strings.JoinLines
    ["l1"; "l2"; "l3"; "l4"; "l5"; "l6"; "l7"; "l8"; "l9"; "l10"; "l11"; "l12"]%string.

Definition twoHunks : FileDiff.t :=
  FileDiff.mk "f" "f"
    [Hunk.mk 3 1 3 1 (strings.JoinLines ["-l3"; "+L3"; ""]%string);
     Hunk.mk 10 3 10 5
       (strings.JoinLines [" l10"; "+N1"; "+N2"; " l11"; " l12"; ""]%string)].

(** A file of one line with a hunk of two context lines, and a hunk that
    starts at line 5 of it. *)
Definition contextPastEnd : FileDiff.t :=
  FileDiff.mk "f" "f" [Hunk.mk 1 2 1 2 (strings.JoinLines [" a"; " b"; ""]%string)].

Definition startPastEnd : FileDiff.t :=
  FileDiff.mk "f" "f" [Hunk.mk 5 0 5 1 (strings.JoinLines ["+x"; ""]%string)].

(** ** [fileDiffVirtualFileContent] *)

(** What the closure reads of a [graphqlbackend.FileDiffResolver]: its
    [FileDiff] and its [OldFile()], which is nil for a new file and
    otherwise has a [Content(ctx)] that gives the content or an error. *)
Module FileDiffResolver.
Record t : Type := mk {
  FileDiff : FileDiff.t;
  OldFile : option (result string)
}.
End FileDiffResolver.

(** The variables captured by the closure that
    [fileDiffVirtualFileContent] returns; [contentCalls] is a ghost
    counter of the calls of [Content]. *)
Module CapturedContent.
Record t : Type := mk {
  onceDone : bool;
  newContent : string;
  err : option error;
  contentCalls : nat
}.

Definition init : t := mk false EmptyString None 0.
End CapturedContent.

(** The function given to [once.Do]: the captured variables afterwards,
    and whether [applyPatch] panicked.  The [err] of the content fetch is
    declared in the inner block, so the captured [err] is never
    assigned. *)
Definition virtualContentOnce (r : FileDiffResolver.t) (v : CapturedContent.t)
  : CapturedContent.t * bool :=
  let fetched : option string * nat :=
    match FileDiffResolver.OldFile r with
    | Some content =>
        match content with
        | Err _ => (None, S (CapturedContent.contentCalls v))
        | Ok oldContent => (Some oldContent, S (CapturedContent.contentCalls v))
        end
    | None => (Some EmptyString, CapturedContent.contentCalls v)
    end in
  let '(oldContent, calls) := fetched in
  match oldContent with
  | None =>
      (CapturedContent.mk (CapturedContent.onceDone v) (CapturedContent.newContent v)
         (CapturedContent.err v) calls, false)
  | Some oldContent =>
      match applyPatch oldContent (FileDiffResolver.FileDiff r) with
      | None =>
          (CapturedContent.mk (CapturedContent.onceDone v)
             (CapturedContent.newContent v) (CapturedContent.err v) calls, true)
      | Some newContent =>
          (CapturedContent.mk (CapturedContent.onceDone v) newContent
             (CapturedContent.err v) calls, false)
      end
  end.

(** One call of the closure that [fileDiffVirtualFileContent(r)] returns:
    the content and the error, or [None] when the call panics, and the
    captured variables afterwards.  A [sync.Once] is done also when its
    function panics. *)
Definition fileDiffVirtualFileContent (r : FileDiffResolver.t) (v : CapturedContent.t)
  : option (string * option error) * CapturedContent.t :=
  if CapturedContent.onceDone v then
    (Some (CapturedContent.newContent v, CapturedContent.err v), v)
  else
    let '(v, panicked) := virtualContentOnce r v in
    let v := CapturedContent.mk true (CapturedContent.newContent v)
               (CapturedContent.err v) (CapturedContent.contentCalls v) in
    (if panicked then None
     else Some (CapturedContent.newContent v, CapturedContent.err v), v).

(** Calls of one closure, one after the other. *)
Fixpoint virtualContentCalls (r : FileDiffResolver.t) (calls : nat)
    (v : CapturedContent.t)
  : list (option (string * option error)) * CapturedContent.t :=
  match calls with
  | O => ([], v)
  | S calls =>
      let '(res, v) := fileDiffVirtualFileContent r v in
      let '(ress, v) := virtualContentCalls r calls v in
      (res :: ress, v)
  end.

(** ** Campaigns: [CampaignByID], [DeleteCampaign], [CloseCampaign],
    [Campaigns] *)

(** [campaigns.Campaign].

    Modelled from the spec: the struct is not among the sources; the
    resolvers pass it on as it is. *)
Module Campaign.
Record t : Type := mk {
  ID : Z;
  Name : string;
  AuthorID : Z;
  ClosedAt : option Z
}.
End Campaign.

(** [campaigns.CampaignState]. *)
Inductive CampaignState : Type :=
| CampaignStateAny
| CampaignStateOpen
| CampaignStateClosed.

(** [graphqlbackend.ListCampaignArgs]. *)
Module ListCampaignArgs.
Record t : Type := mk {
  First : option Z;                  (* *int32 *)
  State : option string;             (* *string *)
  ViewerCanAdminister : option bool  (* *bool *)
}.
End ListCampaignArgs.

(** [ee.ListCampaignsOpts], the fields the resolver sets. *)
Module ListCampaignsOpts.
Record t : Type := mk {
  State : CampaignState;
  Limit : Z;                         (* int *)
  OnlyForAuthor : Z                  (* int32 *)
}.

Definition zero : t := mk CampaignStateAny 0 0.
End ListCampaignsOpts.

(** [graphqlbackend.CloseCampaignArgs] and [DeleteCampaignArgs]. *)
Module CloseCampaignArgs.
Record t : Type := mk {
  Campaign : string;
  CloseChangesets : bool
}.
End CloseCampaignArgs.

Module DeleteCampaignArgs.
Record t : Type := mk {
  Campaign : string
}.
End DeleteCampaignArgs.

(** An error of the resolvers: an error as it came, or an error that
    [errors.Wrap] put a message around. *)
Inductive wrapped : Type :=
| AsIs (e : error)
| Wrap (cause : wrapped) (msg : string).

(** [errors.Cause]. *)
Fixpoint Cause (w : wrapped) : error :=
  match w with
  | AsIs e => e
  | Wrap cause _ => Cause cause
  end.

(** What the campaign mutations do to the outside, in order. *)
Inductive CampaignEvent : Type :=
| CampaignTraceNew (family : string)
| CampaignTraceSetError (e : option wrapped)
| CampaignTraceFinish
| ServiceDeleteCampaign (campaignID : Z) (closeChangesets : bool)
| ServiceCloseCampaign (campaignID : Z) (closeChangesets : bool).

(** The collaborators of the campaign resolvers, as one request sees
    them. *)
Class CampaignBackend : Type := {
  (* campaigns.UnmarshalCampaignID(id) *)
  campaigns_UnmarshalCampaignID : string -> Z * option error;
  (* store.GetCampaign(ctx, ee.GetCampaignOpts{ID: id}) *)
  store_GetCampaign : Z -> result Campaign.t;
  (* svc.DeleteCampaign(ctx, id, closeChangesets) *)
  svc_DeleteCampaign : Z -> bool -> option error;
  (* svc.CloseCampaign(ctx, id, closeChangesets) *)
  svc_CloseCampaign : Z -> bool -> result Campaign.t;
  (* backend.ErrMustBeSiteAdmin *)
  backend_ErrMustBeSiteAdmin : error;
  (* actor.FromContext(ctx).UID *)
  actor_UID : Z
}.

#[global] Instance NumErrKind_eq_dec : EqDecision NumErrKind.
Proof. solve_decision. Defined.

(** Errors are compared as the values they are. *)
#[global] Instance error_eq_dec : EqDecision error.
Proof. solve_decision. Defined.

(** What the verb [%q] of package [fmt] prints for a string: the string
    as a quoted Go string. *)
Class Formatter : Type := {
  fmt_Quoted : string -> string
}.

Section CampaignResolvers.
Context `{Backend} `{CampaignBackend} `{Formatter}.

Definition parseCampaignState (s : option string) : CampaignState * option error :=
  match s with
  | None => (CampaignStateAny, None)
  | Some s =>
      if String.eqb s "OPEN" then (CampaignStateOpen, None)
      else if String.eqb s "CLOSED" then (CampaignStateClosed, None)
      else (CampaignStateAny, Some (ErrNew ("unknown state " +:+ fmt_Quoted s)))
  end.

(** The resolver is a [campaignResolver] around the campaign. *)
Definition CampaignByID (id : string) : option Campaign.t * option error :=
  match allowReadAccess with
  | Some err => (None, Some err)
  | None =>
      match campaigns_UnmarshalCampaignID id with
      | (_, Some err) => (None, Some err)
      | (campaignID, None) =>
          if campaignID =? 0 then (None, None)
          else
            match store_GetCampaign campaignID with
            | Err ErrNoResults => (None, None)
            | Err err => (None, Some err)
            | Ok campaign => (Some campaign, None)
            end
      end
  end.

(** The body of [DeleteCampaign] between the opening of the trace and the
    deferred calls. *)
Definition deleteCampaignBody (args : DeleteCampaignArgs.t)
  : option unit * option error * list CampaignEvent :=
  match campaigns_UnmarshalCampaignID (DeleteCampaignArgs.Campaign args) with
  | (_, Some err) => (None, Some err, [])
  | (campaignID, None) =>
      if campaignID =? 0 then (None, Some ErrIDIsZero, [])
      else
        let err := svc_DeleteCampaign campaignID false in
        (Some tt, err, [ServiceDeleteCampaign campaignID false])
  end.

Definition DeleteCampaign (args : DeleteCampaignArgs.t)
  : option unit * option error * list CampaignEvent :=
  let '(response, err, events) := deleteCampaignBody args in
  (response, err,
   [CampaignTraceNew "Resolver.DeleteCampaign"] ++ events
   ++ [CampaignTraceSetError (option_map AsIs err); CampaignTraceFinish]).

(** The body of [CloseCampaign] between the opening of the trace and the
    deferred calls. *)
Definition closeCampaignBody (args : CloseCampaignArgs.t)
  : option Campaign.t * option wrapped * list CampaignEvent :=
  match campaigns_UnmarshalCampaignID (CloseCampaignArgs.Campaign args) with
  | (_, Some err) => (None, Some (Wrap (AsIs err) "unmarshaling campaign id"), [])
  | (campaignID, None) =>
      if campaignID =? 0 then (None, Some (AsIs ErrIDIsZero), [])
      else
        let closeChangesets := CloseCampaignArgs.CloseChangesets args in
        match svc_CloseCampaign campaignID closeChangesets with
        | Err err =>
            (None, Some (Wrap (AsIs err) "closing campaign"),
             [ServiceCloseCampaign campaignID closeChangesets])
        | Ok campaign =>
            (Some campaign, None, [ServiceCloseCampaign campaignID closeChangesets])
        end
  end.

Definition CloseCampaign (args : CloseCampaignArgs.t)
  : option Campaign.t * option wrapped * list CampaignEvent :=
  let '(response, err, events) := closeCampaignBody args in
  (response, err,
   [CampaignTraceNew "Resolver.CloseCampaign"] ++ events
   ++ [CampaignTraceSetError err; CampaignTraceFinish]).

(** The resolver is a [campaignsConnectionResolver] around the options. *)
Definition Campaigns (args : ListCampaignArgs.t)
  : option ListCampaignsOpts.t * option error :=
  match allowReadAccess with
  | Some err => (None, Some err)
  | None =>
      let opts := ListCampaignsOpts.zero in
      let '(state, err) := parseCampaignState (ListCampaignArgs.State args) in
      match err with
      | Some err => (None, Some err)
      | None =>
          let opts :=
            ListCampaignsOpts.mk state (ListCampaignsOpts.Limit opts)
              (ListCampaignsOpts.OnlyForAuthor opts) in
          let opts :=
            match ListCampaignArgs.First args with
            | Some first =>
                ListCampaignsOpts.mk (ListCampaignsOpts.State opts) first
                  (ListCampaignsOpts.OnlyForAuthor opts)
            | None => opts
            end in
          let authErr := backend_CheckCurrentUserIsSiteAdmin in
          if bool_decide (authErr <> None)
             && bool_decide (authErr <> Some backend_ErrMustBeSiteAdmin)
          then (None, err)
          else
            let isSiteAdmin := bool_decide (authErr <> Some backend_ErrMustBeSiteAdmin) in
            let opts :=
              if negb isSiteAdmin then
                match ListCampaignArgs.ViewerCanAdminister args with
                | Some true =>
                    ListCampaignsOpts.mk (ListCampaignsOpts.State opts)
                      (ListCampaignsOpts.Limit opts) actor_UID
                | _ => opts
                end
              else opts in
            (Some opts, None)
      end
  end.

End CampaignResolvers.

(** ** The extension host: [addElementWithRollback] *)

(** The part of [ExtState] that the registrations change, with what the
    two subjects have emitted so far.  The elements of the arrays are
    objects; [t !== value] compares them as references, which is the
    equality of their type here. *)
Module ExtHost.

Record World (Q P : Type) : Type := mkWorld {
  queryTransformers : list Q;
  hoverProviders : list P;
  queryTransformersChanges : list (list Q);
  hoverProvidersChanges : list (list P)
}.
Arguments mkWorld {Q P}.
Arguments queryTransformers {Q P}.
Arguments hoverProviders {Q P}.
Arguments queryTransformersChanges {Q P}.
Arguments hoverProvidersChanges {Q P}.

(** The [get], [set] and [notifyWith] that a caller hands over. *)
Record Access (W T : Type) : Type := mkAccess {
  get : W -> list T;
  set : list T -> W -> W;
  notify : list T -> W -> W
}.
Arguments mkAccess {W T}.
Arguments get {W T}.
Arguments set {W T}.
Arguments notify {W T}.

(** [addElementWithRollback(value, {get, set, notifyWith})]: the world
    after the call, and the [unsubscribe] of the returned object. *)
Definition addElementWithRollback {W T : Type} `{EqDecision T}
    (value : T) (a : Access W T) (w : W) : W * (W -> W) :=
  let modifiedArray := get a w ++ [value] in
  let w := set a modifiedArray w in
  let w := notify a modifiedArray w in
  (w,
   fun w =>
     let filtered := filter (fun t => t <> value) (get a w) in
     let w := set a modifiedArray w in
     notify a filtered w).

Section Registrations.
Context {Q P : Type} `{EqDecision Q} `{EqDecision P}.

Definition queryTransformersAccess : Access (World Q P) Q :=
  mkAccess
    (fun w => queryTransformers w)
    (fun values w =>
       mkWorld values (hoverProviders w) (queryTransformersChanges w)
         (hoverProvidersChanges w))
    (fun values w =>
       mkWorld (queryTransformers w) (hoverProviders w)
         (queryTransformersChanges w ++ [values]) (hoverProvidersChanges w)).

Definition hoverProvidersAccess : Access (World Q P) P :=
  mkAccess
    (fun w => hoverProviders w)
    (fun values w =>
       mkWorld (queryTransformers w) values (queryTransformersChanges w)
         (hoverProvidersChanges w))
    (fun values w =>
       mkWorld (queryTransformers w) (hoverProviders w)
         (queryTransformersChanges w) (hoverProvidersChanges w ++ [values])).

(** [search.registerQueryTransformer(transformer)]. *)
Definition registerQueryTransformer (transformer : Q) (w : World Q P)
  : World Q P * (World Q P -> World Q P) :=
  addElementWithRollback transformer queryTransformersAccess w.

(** [languages.registerHoverProvider(selector, provider)]; the element is
    the object [{ provider, selector }]. *)
Definition registerHoverProvider (entry : P) (w : World Q P)
  : World Q P * (World Q P -> World Q P) :=
  addElementWithRollback entry hoverProvidersAccess w.

(** Registrations one after the other. *)
Fixpoint registerQueryTransformers (transformers : list Q) (w : World Q P) : World Q P :=
  match transformers with
  | [] => w
  | t :: rest => registerQueryTransformers rest (fst (registerQueryTransformer t w))
  end.

End Registrations.

End ExtHost.

(** ** More vocabulary *)

(** The file diffs of a stream, up to its end or its parse error. *)
Fixpoint recordsOf (s : DiffStream) : list FileDiff.t :=
  match s with
  | AtEOF => []
  | Malformed _ => []
  | NextFile fd rest => fd :: recordsOf rest
  end.

(** The stream that gives the file diffs [l] and then fails to parse. *)
Definition brokenAfter (l : list FileDiff.t) (msg : string) : DiffStream :=
  foldr NextFile (Malformed msg) l.

(** Two hunk lines of the same kind: both empty, both removals, the same
    addition, or both context lines. *)
Definition sameKind (a b : string) : Prop :=
  (a = EmptyString /\ b = EmptyString)
  \/ (strings.HasPrefixByte a "-" = true /\ strings.HasPrefixByte b "-" = true)
  \/ (strings.HasPrefixByte a "+" = true /\ a = b)
  \/ (consumesOriginal a = true /\ consumesOriginal b = true
      /\ strings.HasPrefixByte a "-" = false /\ strings.HasPrefixByte b "-" = false).

(** Two hunks at the same place whose lines are of the same kinds. *)
Definition sameShape (h1 h2 : Hunk.t) : Prop :=
  Hunk.OrigStartLine h1 = Hunk.OrigStartLine h2
  /\ Forall2 sameKind (strings.SplitLines (Hunk.Body h1))
                      (strings.SplitLines (Hunk.Body h2)).

(** A hunk line that adds a line or is empty, and the lines that such
    lines add. *)
Definition addsOnly (line : string) : bool :=
  String.eqb line "" || strings.HasPrefixByte line "+".

Definition addedLines (hunkLines : list string) : list string :=
  map strings.tail (filter (fun line => String.eqb line "" = false) hunkLines).

(** A hunk line that is a context line or is empty. *)
Definition contextOnly (line : string) : bool :=
  String.eqb line ""
  || (negb (strings.HasPrefixByte line "-") && negb (strings.HasPrefixByte line "+")).

(** Where [lastLine] stands after hunks that fit, from [next] on. *)
Fixpoint cursorAfter (next : Z) (hunks : list Hunk.t) : Z :=
  match hunks with
  | [] => next
  | hunk :: rest =>
      let start :=
        if Hunk.OrigStartLine hunk =? 0 then next else Hunk.OrigStartLine hunk in
      cursorAfter (start + origSpan hunk) rest
  end.

(** A parser for examples whose every text gives the two file diffs and
    then breaks. *)
Definition brokenParser : DiffParser := {|
  NewMultiFileDiffReader text := brokenAfter twoFiles "unexpected end of hunk"
|}.

(** A backend for examples whose viewer has access to no repository. *)
Definition blindBackend : Backend := {|
  relay_UnmarshalSpec id := strconv.ParseInt id 10 64;
  conf_CampaignsReadAccessEnabled := true;
  backend_CheckCurrentUserIsSiteAdmin := Some (ErrNew "must be site admin");
  store_GetChangeset id :=
    if id =? 7 then Ok (exampleChangeset 7 2) else Err ErrNoResults;
  store_ListPatches opts := Ok examplePatches;
  db_Repos_Get id := Err (ErrCollab true "repo not found");
  db_Repos_GetByIDs ids := Ok [];
  svc_EnqueueChangesetSync id := None
|}.

(** A backend for examples that lists the patches in another order. *)
Definition reorderedBackend : Backend := {|
  relay_UnmarshalSpec id := strconv.ParseInt id 10 64;
  conf_CampaignsReadAccessEnabled := true;
  backend_CheckCurrentUserIsSiteAdmin := Some (ErrNew "must be site admin");
  store_GetChangeset id := Err ErrNoResults;
  store_ListPatches opts := Ok (rev examplePatches);
  db_Repos_Get id := Err (ErrCollab true "repo not found");
  db_Repos_GetByIDs ids := Ok (rev exampleRepos);
  svc_EnqueueChangesetSync id := None
|}.

(** The options that [listChangesetOptsFromArgs] returns for arguments
    that it accepts. *)
Definition optsOfArgs (args : ListChangesetsArgs.t) : ListChangesetsOpts.t :=
  ListChangesetsOpts.mk
    (match ListChangesetsArgs.First args with Some first => first | None => 0 end)
    (ListChangesetsArgs.State args)
    (ListChangesetsArgs.ReviewState args)
    (ListChangesetsArgs.CheckState args).

(** A campaign backend for examples: the store has the campaign 5, the
    service deletes and closes it and knows no other. *)
Definition exampleCampaign : Campaign.t := Campaign.mk 5 "upgrade deps" 9 None.

Definition exampleCampaignBackend : CampaignBackend := {|
  campaigns_UnmarshalCampaignID id := strconv.ParseInt id 10 64;
  store_GetCampaign id := if id =? 5 then Ok exampleCampaign else Err ErrNoResults;
  svc_DeleteCampaign id closeChangesets :=
    if id =? 5 then None else Some (ErrCollab true "campaign not found");
  svc_CloseCampaign id closeChangesets :=
    if id =? 5 then Ok (Campaign.mk 5 "upgrade deps" 9 (Some 3000))
    else Err (ErrCollab true "campaign not found");
  backend_ErrMustBeSiteAdmin := ErrNew "must be site admin";
  actor_UID := 9
|}.

(** A backend for examples whose check of the current user fails for a
    user that is not signed in. *)
Definition anonymousBackend : Backend := {|
  relay_UnmarshalSpec id := strconv.ParseInt id 10 64;
  conf_CampaignsReadAccessEnabled := true;
  backend_CheckCurrentUserIsSiteAdmin := Some (ErrNew "not authenticated");
  store_GetChangeset id := Err ErrNoResults;
  store_ListPatches opts := Ok [];
  db_Repos_Get id := Err (ErrCollab true "repo not found");
  db_Repos_GetByIDs ids := Ok [];
  svc_EnqueueChangesetSync id := None
|}.

(** A formatter for examples, which puts a string between single
    quotes. *)
Definition exampleFormatter : Formatter := {|
  fmt_Quoted s := "'" +:+ s +:+ "'"
|}.

Definition isServiceCall (ev : CampaignEvent) : bool :=
  match ev with
  | ServiceDeleteCampaign _ _ | ServiceCloseCampaign _ _ => true
  | _ => false
  end.

(** The fields that a description of the hidden changeset as "id,
    timestamps, state" names. *)
Definition idTimestampsState : list Method.t :=
  [Method.ID; Method.CreatedAt; Method.UpdatedAt; Method.NextSyncAt; Method.State].

(** The original start lines of the hunks go strictly up. *)
Fixpoint startsAscend (hunks : list Hunk.t) : bool :=
  match hunks with
  | [] => true
  | hunk :: rest =>
      match rest with
      | [] => true
      | next :: _ =>
          (Hunk.OrigStartLine hunk <? Hunk.OrigStartLine next) && startsAscend rest
      end
  end.

(** Every original line that a hunk touches, from its original start line
    on, is one of the [n] lines of the file. *)
Definition touchedLinesExist (n : Z) (hunks : list Hunk.t) : bool :=
  forallb (fun hunk =>
             (1 <=? Hunk.OrigStartLine hunk)
             && (Hunk.OrigStartLine hunk + origSpan hunk <=? n + 1)) hunks.

(** A file of four lines and a diff of two hunks of context lines that
    overlap: the first stands for the lines 1 to 3, the second for line 2. *)
Definition fourLines : string := strings.JoinLines ["a"; "b"; "c"; "d"]%string.

Definition overlappingHunks : FileDiff.t :=
  FileDiff.mk "f" "f"
    [Hunk.mk 1 3 1 3 (strings.JoinLines [" a"; " b"; " c"; ""]%string);
     Hunk.mk 2 1 2 1 (strings.JoinLines [" b"; ""]%string)].

(* ===================================================================== *)
(** * Part II: properties                                                 *)
(* ===================================================================== *)

(** ** The listing filter *)

Section ListChangesetsFacts.
Context `{ChangesetEnums}.

Import ListChangesetsArgs.

(** C1.  [listChangesetOptsFromArgs] answers [optsSafe = false] whenever a
    [ReviewState] or a [CheckState] filter is present; it answers
    [optsSafe = true] without error for nil arguments and for arguments
    with no filter or with a filter on a (valid) [State] only; and for a
    [State], [ReviewState] or [CheckState] outside its valid set it answers
    a validation error together with [optsSafe = false]. *)
Theorem listChangesetOptsFromArgs_optsSafe (args : option ListChangesetsArgs.t) :
  let '(_, optsSafe, err) := listChangesetOptsFromArgs args in
  (forall a, args = Some a ->
     ReviewState a <> None \/ CheckState a <> None -> optsSafe = false)
  /\ (args = None
      \/ (exists a, args = Some a /\ ReviewState a = None /\ CheckState a = None
                    /\ forall s, State a = Some s -> ChangesetState_Valid s = true)
      -> optsSafe = true /\ err = None)
  /\ (forall a, args = Some a -> hasInvalidEnum a ->
        optsSafe = false /\ exists msg, err = Some (ErrNew msg)).
Proof.
  destruct args as [[first state review check]|]; cbn.
  - destruct state as [st|]; [destruct (ChangesetState_Valid st) eqn:Est|]; cbn;
      (destruct review as [rv|]; [destruct (ChangesetReviewState_Valid rv) eqn:Erv|]; cbn);
      (destruct check as [ck|]; [destruct (ChangesetCheckState_Valid ck) eqn:Eck|]; cbn);
      unfold hasInvalidEnum; cbn;
      repeat split; intros;
      repeat match goal with
        | Hx : Some _ = Some _ |- _ => injection Hx as ?; subst
        | Hx : _ \/ _ |- _ => destruct Hx
        | Hx : _ /\ _ |- _ => destruct Hx
        | Hx : exists _, _ |- _ => destruct Hx
        | Hx : forall s : string, _ |- _ => specialize (Hx _ eq_refl)
        end;
      cbn in *; subst; try congruence; eauto.
  - repeat split; intros; congruence.
Qed.
End ListChangesetsFacts.

Lemma listChangesetOptsFromArgs_optsSafe_witness :
  let args := Some (ListChangesetsArgs.mk (Some 10) (Some "OPEN"%string)
                      (Some "APPROVED"%string) None) in
  (ListChangesetsArgs.ReviewState (ListChangesetsArgs.mk (Some 10)
      (Some "OPEN"%string) (Some "APPROVED"%string) None) <> None
   \/ ListChangesetsArgs.CheckState (ListChangesetsArgs.mk (Some 10)
      (Some "OPEN"%string) (Some "APPROVED"%string) None) <> None)
  /\ snd (fst (@listChangesetOptsFromArgs exampleEnums args)) = false.
Proof.
  cbv zeta. split; [left; discriminate |].
  pose proof (@listChangesetOptsFromArgs_optsSafe exampleEnums
                (Some (ListChangesetsArgs.mk (Some 10) (Some "OPEN"%string)
                         (Some "APPROVED"%string) None))) as Hc.
  destruct (@listChangesetOptsFromArgs exampleEnums _) as [[opts safe] err].
  destruct Hc as [Ha _].
  apply (Ha _ eq_refl). left; discriminate.
Defined.

(** ** The diff stat of a patch set *)

Lemma wrap_add_wrap_l (a b : Z) :
  Int32.wrap (Int32.wrap a + b) = Int32.wrap (a + b).
Proof.
  unfold Int32.wrap.
  replace ((a + 2147483648) mod 4294967296 - 2147483648 + b + 2147483648)
    with ((a + 2147483648) mod 4294967296 + b) by lia.
  rewrite Z.add_mod_idemp_l by lia.
  f_equal. f_equal. lia.
Qed.

Lemma wrap_in_range (z : Z) : Int32.InRange z -> Int32.wrap z = z.
Proof.
  unfold Int32.InRange, Int32.min, Int32.max, Int32.wrap. intros Hz.
  rewrite Z.mod_small; lia.
Qed.

Lemma foldl_AddStat (stats : list Stat.t) (a c d : Z) :
  foldl DiffStat.AddStat
    (DiffStat.mk (Int32.wrap a) (Int32.wrap c) (Int32.wrap d)) stats
  = DiffStat.mk (Int32.wrap (a + sumOf Stat.Added stats))
                (Int32.wrap (c + sumOf Stat.Changed stats))
                (Int32.wrap (d + sumOf Stat.Deleted stats)).
Proof.
  revert a c d. induction stats as [|s stats IH]; intros a c d; cbn.
  - by rewrite !Z.add_0_r.
  - unfold DiffStat.AddStat at 2. cbn [DiffStat.added DiffStat.changed DiffStat.deleted].
    rewrite !wrap_add_wrap_l, IH. unfold sumOf. cbn [foldr].
    f_equal; f_equal; lia.
Qed.

Lemma elem_of_collectRepoIDs (accessibleRepos : list Repo.t) (id : Z) :
  id ∈ collectRepoIDs accessibleRepos <-> id ∈ map Repo.ID accessibleRepos.
Proof.
  unfold collectRepoIDs.
  assert (Hgen : forall (acc : gset Z),
            id ∈ foldl (fun ids r => {[ Repo.ID r ]} ∪ ids) acc accessibleRepos
            <-> id ∈ acc \/ id ∈ map Repo.ID accessibleRepos).
  { induction accessibleRepos as [|r rs IH]; intros acc; cbn.
    - rewrite elem_of_nil. tauto.
    - rewrite IH, elem_of_union, elem_of_singleton, elem_of_cons. tauto. }
  rewrite Hgen, elem_of_empty. tauto.
Qed.

(** The loop on a list whose accessible patches all have a diff stat:
    the stats of the accessible patches, added up in order. *)
Lemma sumDiffStats_complete (ids : gset Z) (patches : list Patch.t) (total : DiffStat.t) :
  Forall hasDiffStat (filter (fun p => Patch.RepoID p ∈ ids) patches) ->
  sumDiffStats ids patches total
  = Ok (foldl DiffStat.AddStat total
          (omap Patch.DiffStat (filter (fun p => Patch.RepoID p ∈ ids) patches))).
Proof.
  revert total. induction patches as [|p ps IH]; intros total Hall; cbn; [done|].
  destruct (decide (Patch.RepoID p ∈ ids)) as [Hin|Hout].
  - rewrite filter_cons_True in * by done.
    inversion Hall as [|? ? Hp Hps]; subst.
    unfold hasDiffStat in Hp.
    destruct (Patch.DiffStat p) as [st|] eqn:Est; [|done].
    cbn. rewrite Est. cbn. by apply IH.
  - rewrite filter_cons_False in * by done. by apply IH.
Qed.

(** The loop on a list with an accessible patch without diff stat: the
    error names the first such patch. *)
Lemma sumDiffStats_missing (ids : gset Z) (patches before after : list Patch.t)
    (p : Patch.t) (total : DiffStat.t) :
  patches = before ++ p :: after ->
  Forall hasDiffStat (filter (fun q => Patch.RepoID q ∈ ids) before) ->
  Patch.RepoID p ∈ ids ->
  Patch.DiffStat p = None ->
  sumDiffStats ids patches total = Err (ErrPatchNoDiffStat (Patch.ID p)).
Proof.
  intros -> Hbefore Hin Hnone. revert total Hbefore.
  induction before as [|q qs IH]; intros total Hbefore; cbn.
  - rewrite decide_True by done. by rewrite Hnone.
  - destruct (decide (Patch.RepoID q ∈ ids)) as [Hq|Hq].
    + rewrite filter_cons_True in Hbefore by done.
      inversion Hbefore as [|? ? Hst Hrest]; subst.
      unfold hasDiffStat in Hst.
      destruct (Patch.DiffStat q) as [st|]; [|done]. by apply IH.
    + rewrite filter_cons_False in Hbefore by done. by apply IH.
Qed.

Section PatchSetDiffStatFacts.
Context `{Backend}.

(** C2.  On the patches that the store lists and the repositories that
    the repository database returns for them, [patchSetDiffStat] adds up
    the diff stats of the patches of these repositories only; a patch of
    another repository contributes nothing, with or without diff stat.
    When a patch of a returned repository has no diff stat, the result is
    the error of the first such patch, not a total. *)
Theorem patchSetDiffStat_visible_only
    (opts : ListPatchesOpts.t) (patches : list Patch.t) (accessibleRepos : list Repo.t) :
  store_ListPatches (withNoDiff opts) = Ok patches ->
  db_Repos_GetByIDs (map Patch.RepoID patches) = Ok accessibleRepos ->
  let visible := filter (visibleTo accessibleRepos) patches in
  let stats := omap Patch.DiffStat visible in
  (Forall hasDiffStat visible ->
     patchSetDiffStat opts
     = Ok (DiffStat.mk (Int32.wrap (sumOf Stat.Added stats))
                       (Int32.wrap (sumOf Stat.Changed stats))
                       (Int32.wrap (sumOf Stat.Deleted stats))))
  /\ (forall before p after,
        patches = before ++ p :: after ->
        Forall hasDiffStat (filter (visibleTo accessibleRepos) before) ->
        visibleTo accessibleRepos p ->
        Patch.DiffStat p = None ->
        patchSetDiffStat opts = Err (ErrPatchNoDiffStat (Patch.ID p)))
  /\ (Exists (fun p => Patch.DiffStat p = None) visible ->
        exists e, patchSetDiffStat opts = Err e).
Proof.
  intros Hlist Hrepos visible stats.
  assert (Hfilter : forall l : list Patch.t,
            filter (fun p => Patch.RepoID p ∈ collectRepoIDs accessibleRepos) l
            = filter (visibleTo accessibleRepos) l).
  { intros l. apply list_filter_iff. intros p. apply elem_of_collectRepoIDs. }
  unfold patchSetDiffStat. fold (withNoDiff opts). rewrite Hlist, Hrepos.
  split; [|split].
  - intros Hall.
    rewrite sumDiffStats_complete by (by rewrite Hfilter).
    rewrite Hfilter. fold visible. fold stats.
    change DiffStat.zero with (DiffStat.mk 0 0 0).
    change 0 with (Int32.wrap 0) at 1 2 3.
    by rewrite foldl_AddStat.
  - intros before p after Hsplit Hbefore Hvis Hnone.
    eapply sumDiffStats_missing; eauto.
    + by rewrite Hfilter.
    + by apply elem_of_collectRepoIDs.
  - intros Hex.
    destruct (sumDiffStats (collectRepoIDs accessibleRepos) patches DiffStat.zero)
      as [total|e] eqn:Hsum; [|eauto].
    exfalso. clear Hlist Hrepos.
    revert Hsum Hex. subst visible. generalize DiffStat.zero.
    induction patches as [|q qs IH]; intros total0 Hsum Hex; cbn in Hsum.
    + by apply Exists_nil in Hex.
    + destruct (decide (Patch.RepoID q ∈ collectRepoIDs accessibleRepos)) as [Hq|Hq].
      * rewrite filter_cons_True in Hex by (by apply elem_of_collectRepoIDs).
        apply Exists_cons in Hex as [Hq0|Hrest].
        -- by rewrite Hq0 in Hsum.
        -- destruct (Patch.DiffStat q); [|done]. eapply IH; eauto.
      * rewrite filter_cons_False in Hex
          by (intros Hv; by apply Hq, elem_of_collectRepoIDs).
        eapply IH; eauto.
Qed.

End PatchSetDiffStatFacts.

Lemma patchSetDiffStat_visible_only_witness :
  @patchSetDiffStat exampleBackend (ListPatchesOpts.mk 1 0 false)
  = Ok (DiffStat.mk 11 22 33).
Proof.
  pose proof (@patchSetDiffStat_visible_only exampleBackend
                (ListPatchesOpts.mk 1 0 false) examplePatches exampleRepos
                eq_refl eq_refl) as [Hsum _].
  rewrite Hsum; [reflexivity|].
  vm_compute. repeat constructor; discriminate.
Defined.

(** ** Cursors: [strconv.Itoa] and [strconv.ParseInt] *)

Lemma byte_digit (d : Z) :
  0 <= d <= 9 -> strconv.byte (ascii_of_N (Z.to_N (48 + d))) = 48 + d.
Proof.
  intros Hd. unfold strconv.byte.
  rewrite N_ascii_embedding by lia. lia.
Qed.

(** One round of the digit loop on a decimal digit. *)
Lemma digitsLoop_digit (cutoff maxVal : Z) (d n : Z) (rest : string) (u : bool) :
  0 <= d <= 9 -> n < cutoff -> n * 10 + d <= maxVal ->
  strconv.digitsLoop 10 true cutoff maxVal
    (String (ascii_of_N (Z.to_N (48 + d))) rest) n u
  = strconv.digitsLoop 10 true cutoff maxVal rest (n * 10 + d) u.
Proof.
  intros Hd Hn Hmax. cbn [strconv.digitsLoop].
  rewrite byte_digit by lia.
  replace (48 + d =? 95) with false by lia.
  replace (48 <=? 48 + d) with true by lia.
  replace (48 + d <=? 57) with true by lia.
  cbn [andb].
  replace (48 + d - 48) with d by lia.
  replace (10 <=? d) with false by lia.
  replace (cutoff <=? n) with false by lia.
  replace (maxVal <? n * 10 + d) with false by lia.
  reflexivity.
Qed.

(** The digit loop reads back what [formatDigits] wrote. *)
Lemma digitsLoop_formatDigits (cutoff maxVal : Z) (fuel : nat) :
  maxVal < cutoff ->
  forall (n : Z) (acc : string),
    0 <= n < 10 ^ Z.of_nat fuel -> n <= maxVal ->
    strconv.digitsLoop 10 true cutoff maxVal (strconv.formatDigits fuel n acc) 0 false
    = strconv.digitsLoop 10 true cutoff maxVal acc n false.
Proof.
  intros Hcut. induction fuel as [|fuel IH]; intros n acc Hn Hmax.
  - cbn [strconv.formatDigits]. replace n with 0 by (cbn in Hn; lia). reflexivity.
  - cbn [strconv.formatDigits].
    rewrite Nat2Z.inj_succ, Z.pow_succ_r in Hn by lia.
    pose proof (Z.mod_pos_bound n 10 ltac:(lia)) as Hmod.
    pose proof (Z.div_mod n 10 ltac:(lia)) as Hdiv.
    destruct (n <? 10) eqn:Hsmall.
    + apply Z.ltb_lt in Hsmall.
      rewrite Z.mod_small by lia.
      rewrite digitsLoop_digit by lia. f_equal; lia.
    + apply Z.ltb_ge in Hsmall.
      assert (0 <= n / 10 < 10 ^ Z.of_nat fuel).
      { split; [apply Z.div_pos; lia|]. apply Z.div_lt_upper_bound; lia. }
      assert (n / 10 <= maxVal) by lia.
      rewrite IH by lia.
      rewrite digitsLoop_digit by lia. f_equal; lia.
Qed.

(** A positive number is written with a first digit from 1 to 9. *)
Lemma formatDigits_first (fuel : nat) :
  forall (n : Z) (acc : string),
    1 <= n < 10 ^ Z.of_nat fuel ->
    exists d rest, 1 <= d <= 9
      /\ strconv.formatDigits fuel n acc = String (ascii_of_N (Z.to_N (48 + d))) rest.
Proof.
  induction fuel as [|fuel IH]; intros n acc Hn.
  - cbn in Hn. lia.
  - cbn [strconv.formatDigits].
    rewrite Nat2Z.inj_succ, Z.pow_succ_r in Hn by lia.
    destruct (n <? 10) eqn:Hsmall.
    + apply Z.ltb_lt in Hsmall. exists n, acc.
      rewrite Z.mod_small by lia. split; [lia|reflexivity].
    + apply Z.ltb_ge in Hsmall.
      apply IH. split.
      * apply Z.div_le_lower_bound; lia.
      * apply Z.div_lt_upper_bound; lia.
Qed.

(** [ParseUint] with base 0 on a string that starts with a digit from 1
    to 9 is the decimal digit loop. *)
Lemma ParseUint_decimal (d : Z) (rest : string) (n : Z) :
  1 <= d <= 9 ->
  strconv.digitsLoop 10 true 1844674407370955162 4294967295
    (String (ascii_of_N (Z.to_N (48 + d))) rest) 0 false = inl (n, false) ->
  strconv.ParseUint (String (ascii_of_N (Z.to_N (48 + d))) rest) 0 32 = (n, None).
Proof.
  intros Hd Hloop. unfold strconv.ParseUint.
  rewrite byte_digit by lia.
  replace (48 + d =? 48) with false by lia.
  change ((2 <=? 0) && (0 <=? 36)) with false.
  change (0 =? 0) with true.
  change (32 =? 0) with false.
  change ((32 <? 0) || (64 <? 32)) with false.
  cbv iota beta.
  change (strconv.maxUint64 / 10 + 1) with 1844674407370955162.
  change (2 ^ 32 - 1) with 4294967295.
  rewrite Hloop. reflexivity.
Qed.

(** A cursor written by [strconv.Itoa] is read back by
    [strconv.ParseInt(s, 0, 32)]. *)
Lemma ParseInt_Itoa (c : Z) :
  0 <= c <= Int32.max -> strconv.ParseInt (strconv.Itoa c) 0 32 = (c, None).
Proof.
  intros Hc. unfold Int32.max in Hc.
  destruct (Z.eq_dec c 0) as [->|Hnz]; [reflexivity|].
  unfold strconv.Itoa. replace (c <? 0) with false by lia.
  assert (Hpow : 1 <= c < 10 ^ Z.of_nat 20)
    by (change (10 ^ Z.of_nat 20) with 100000000000000000000; lia).
  destruct (formatDigits_first 20 c EmptyString Hpow) as (d & rest & Hd & Heq).
  pose proof (digitsLoop_formatDigits 1844674407370955162 4294967295 20
                ltac:(lia) c EmptyString ltac:(lia) ltac:(lia)) as Hloop.
  rewrite Heq in Hloop |- *.
  cbn [strconv.digitsLoop] in Hloop.
  unfold strconv.ParseInt.
  rewrite byte_digit by lia.
  replace (48 + d =? 43) with false by lia.
  replace (48 + d =? 45) with false by lia.
  cbv iota beta.
  rewrite (ParseUint_decimal d rest c Hd Hloop).
  change (32 =? 0) with false. cbv iota beta.
  change (2 ^ (32 - 1)) with 2147483648.
  cbn [negb andb].
  replace (2147483648 <=? c) with false by lia.
  reflexivity.
Qed.

(** ** The file-diff computation *)

(** The loop stops at the record that makes [totalAmount] records: [k]
    records are read, then one [ReadFile] looks for a next one. *)
Lemma readFileDiffs_upto (totalAmount : Z) (l : list FileDiff.t) :
  forall (fileDiffs : list FileDiff.t) (calls k : nat),
    (1 <= k <= length l)%nat ->
    totalAmount = Z.of_nat (length fileDiffs + k) ->
    readFileDiffs totalAmount (streamOf l) calls fileDiffs
    = (fileDiffs ++ take k l, (k <? length l)%nat, None,
       Reader.mk (streamOf (drop (S k) l)) (calls + k + 1)).
Proof.
  induction l as [|fd l IH]; intros fileDiffs calls k Hk Htotal; cbn in Hk; [lia|].
  cbn [streamOf foldr readFileDiffs]. fold (streamOf l).
  rewrite length_app. cbn [length].
  destruct (Z.of_nat (length fileDiffs + 1) =? totalAmount) eqn:Hhit.
  - apply Z.eqb_eq in Hhit. assert (k = 1%nat) as -> by lia.
    destruct l as [|fd' l]; cbn; repeat f_equal; lia.
  - apply Z.eqb_neq in Hhit.
    destruct k as [|k]; [lia|]. destruct k as [|k]; [lia|].
    rewrite (IH (fileDiffs ++ [fd]) (S calls) (S k)).
    + cbn [take drop length]. rewrite <- app_assoc. cbn [app].
      replace (S calls + S k + 1)%nat with (calls + S (S k) + 1)%nat by lia.
      reflexivity.
    + lia.
    + rewrite length_app. cbn [length]. lia.
Qed.

(** The loop never makes [totalAmount] records: it reads to the end. *)
Lemma readFileDiffs_all (totalAmount : Z) (l : list FileDiff.t) :
  forall (fileDiffs : list FileDiff.t) (calls : nat),
    totalAmount <= Z.of_nat (length fileDiffs)
    \/ Z.of_nat (length fileDiffs + length l) < totalAmount ->
    readFileDiffs totalAmount (streamOf l) calls fileDiffs
    = (fileDiffs ++ l, false, None, Reader.mk AtEOF (calls + length l + 1)).
Proof.
  induction l as [|fd l IH]; intros fileDiffs calls Hmiss.
  - cbn. rewrite app_nil_r. repeat f_equal; lia.
  - cbn [streamOf foldr readFileDiffs]. fold (streamOf l).
    rewrite length_app. cbn [length] in *.
    destruct (Z.eqb_spec (Z.of_nat (length fileDiffs + 1)) totalAmount) as [Heq|Hne]; [lia|].
    rewrite IH.
    + rewrite <- app_assoc. cbn [app].
      replace (S calls + length l + 1)%nat with (calls + S (length l) + 1)%nat by lia.
      reflexivity.
    + rewrite length_app. cbn [length]. lia.
Qed.

(** Case analysis on the tests that a hypothesis about a result went
    through. *)
Ltac split_tests H :=
  repeat (first
    [ discriminate H
    | match type of H with
      | context [if ?b then _ else _] => destruct b eqn:?
      | context [match ?x with _ => _ end] => destruct x eqn:?
      end ]).

Lemma digitsLoop_nonneg (base : Z) (base0 : bool) (cutoff maxVal : Z) (s : string) :
  forall (n : Z) (u : bool) (m : Z) (u' : bool),
    0 <= base -> 0 <= n ->
    strconv.digitsLoop base base0 cutoff maxVal s n u = inl (m, u') -> 0 <= m.
Proof.
  induction s as [|ch s IH]; intros n u m u' Hbase Hn Hloop; cbn in Hloop.
  - injection Hloop as <- _. exact Hn.
  - split_tests Hloop;
      repeat match goal with
        | Hd : Some _ = Some _ |- _ => injection Hd as <-
        | Hb : (_ && _) = true |- _ => apply andb_prop in Hb as [? ?]
        end;
      refine (IH _ _ _ _ Hbase _ Hloop); nia.
Qed.

Lemma ParseUint_nonneg (s : string) (n : Z) :
  strconv.ParseUint s 0 32 = (n, None) -> 0 <= n.
Proof.
  unfold strconv.ParseUint. intros Hparse.
  destruct s as [|c0 rest0]; [discriminate|].
  change (0 =? 0) with true in Hparse.
  change ((2 <=? 0) && (0 <=? 36)) with false in Hparse.
  change (32 =? 0) with false in Hparse.
  change ((32 <? 0) || (64 <? 32)) with false in Hparse.
  cbv iota beta in Hparse.
  destruct (strconv.byte c0 =? 48);
    [destruct rest0 as [|c1 [|c2 rest2]];
     [| |destruct (strconv.lower (strconv.byte c1) =? 98);
         [|destruct (strconv.lower (strconv.byte c1) =? 111);
           [|destruct (strconv.lower (strconv.byte c1) =? 120)]]]|];
    cbv iota beta in Hparse;
    match type of Hparse with
    | context [strconv.digitsLoop ?b ?b0 ?c ?m ?x 0 false] =>
        destruct (strconv.digitsLoop b b0 c m x 0 false) as [[v u]|[v k]] eqn:Hloop
    end;
    split_tests Hparse; injection Hparse as <-;
    eapply digitsLoop_nonneg in Hloop; lia.
Qed.

Lemma digitsLoop_range (base : Z) (base0 : bool) (cutoff maxVal : Z) (s : string) :
  forall (n : Z) (u : bool) (v : Z),
    strconv.digitsLoop base base0 cutoff maxVal s n u = inr (v, ErrRange) -> v = maxVal.
Proof.
  induction s as [|ch s IH]; intros n u v Hloop; cbn in Hloop; [discriminate|].
  split_tests Hloop;
    try (injection Hloop as <-; reflexivity);
    exact (IH _ _ _ Hloop).
Qed.

(** With a range error [ParseUint] returns the largest value of the bit
    size. *)
Lemma ParseUint_range (s : string) (n : Z) :
  strconv.ParseUint s 0 32 = (n, Some ErrRange) -> n = 4294967295.
Proof.
  unfold strconv.ParseUint. intros Hparse.
  destruct s as [|c0 rest0]; [discriminate|].
  change (0 =? 0) with true in Hparse.
  change ((2 <=? 0) && (0 <=? 36)) with false in Hparse.
  change (32 =? 0) with false in Hparse.
  change ((32 <? 0) || (64 <? 32)) with false in Hparse.
  change (2 ^ 32 - 1) with 4294967295 in Hparse.
  cbv iota beta in Hparse.
  destruct (strconv.byte c0 =? 48);
    [destruct rest0 as [|c1 [|c2 rest2]];
     [| |destruct (strconv.lower (strconv.byte c1) =? 98);
         [|destruct (strconv.lower (strconv.byte c1) =? 111);
           [|destruct (strconv.lower (strconv.byte c1) =? 120)]]]|];
    cbv iota beta in Hparse;
    match type of Hparse with
    | context [strconv.digitsLoop ?b ?b0 ?c ?m ?x 0 false] =>
        destruct (strconv.digitsLoop b b0 c m x 0 false) as [[v u]|[v k]] eqn:Hloop
    end;
    split_tests Hparse; injection Hparse as ? ?; subst;
    exact (digitsLoop_range _ _ _ _ _ _ _ _ Hloop).
Qed.

(** A cursor that [strconv.ParseInt(s, 0, 32)] accepts is an [int32]. *)
Lemma ParseInt_int32 (s : string) (z : Z) :
  strconv.ParseInt s 0 32 = (z, None) -> Int32.InRange z.
Proof.
  unfold strconv.ParseInt, Int32.InRange, Int32.min, Int32.max. intros Hparse.
  destruct s as [|c0 rest]; [discriminate|].
  change (32 =? 0) with false in Hparse.
  change (2 ^ (32 - 1)) with 2147483648 in Hparse.
  destruct (strconv.byte c0 =? 43) eqn:Hplus;
    [|destruct (strconv.byte c0 =? 45) eqn:Hminus];
    cbv iota beta in Hparse;
    match type of Hparse with
    | context [strconv.ParseUint ?x 0 32] =>
        destruct (strconv.ParseUint x 0 32) as [un [k|]] eqn:Hun
    end;
    try (destruct k; cbn in Hparse; try discriminate);
    cbn [andb negb] in Hparse;
    split_tests Hparse; injection Hparse as <-;
    first [apply ParseUint_nonneg in Hun | apply ParseUint_range in Hun];
    change (2 ^ (32 - 1)) with 2147483648 in *; lia.
Qed.

Section FileDiffConnectionFacts.
Context `{DiffParser}.

Import FileDiffsConnectionArgs.

(** The first run of the computation on a request whose cursor is
    accepted: the offset is stored and the loop runs on a new reader with
    the offset plus the limit as total amount. *)
Lemma computeOnce_offset (patch : Patch.t) (args : FileDiffsConnectionArgs.t) (c : Z) :
  effectiveOffset args = Some c ->
  0 <= c <= Int32.max
  /\ computeOnce patch args Captured.init
     = let totalAmount :=
         match First args with
         | Some first => Int32.wrap (c + first)
         | None => c
         end in
       let '(fileDiffs, hasNextPage, err, dr) :=
         readFileDiffs totalAmount (NewMultiFileDiffReader (Patch.Diff patch)) 0 [] in
       (Captured.mk false fileDiffs c hasNextPage err 1, Some dr).
Proof.
  unfold effectiveOffset, computeOnce. intros Hoff.
  destruct (After args) as [after|].
  - destruct (strconv.ParseInt after 0 32) as [z [e|]] eqn:Hparse; [discriminate|].
    injection Hoff as <-.
    pose proof (ParseInt_int32 _ _ Hparse) as Hrange.
    unfold Int32.InRange, Int32.min, Int32.max in Hrange.
    assert (Hclamp : (if z <? 0 then 0 else z) = Z.max 0 z)
      by (destruct (Z.ltb_spec z 0); lia).
    rewrite Hclamp.
    rewrite wrap_in_range by (unfold Int32.InRange, Int32.min, Int32.max; lia).
    split; [unfold Int32.max; lia|].
    cbn zeta.
    destruct (readFileDiffs _ _ 0 _) as [[[fds hn] e] dr].
    cbn. by rewrite orb_false_r.
  - injection Hoff as <-. split; [unfold Int32.max; lia|].
    cbn.
    destruct (readFileDiffs _ _ 0 _) as [[[fds hn] e] dr].
    cbn. by rewrite orb_false_r.
Qed.

(** C6, as amended.  On a patch of the file diffs [l], a request with
    effective offset [c] and limit [n] such that [0 < c+n] (and [c+n] is an
    [int32]) makes the computation read [c+n] records, or all of them when
    there are fewer, and then exactly one more: there is a next page
    exactly when a record [c+n+1] exists, and the records after it stay
    unread.  When [c+n] is zero or negative the computation reads the
    whole stream and reports no next page. *)
Theorem computeOnce_reads_page (patch : Patch.t) (args : FileDiffsConnectionArgs.t)
    (l : list FileDiff.t) (c n : Z) :
  NewMultiFileDiffReader (Patch.Diff patch) = streamOf l ->
  effectiveOffset args = Some c ->
  limitOf args = n ->
  (0 < c + n <= Int32.max -> readsOnlyThePage patch args l c n)
  /\ (Int32.min <= c + n <= 0 -> readsEverything patch args l).
Proof.
  intros Hstream Hoff Hlimit.
  destruct (computeOnce_offset patch args c Hoff) as [Hc Hrun].
  rewrite Hstream in Hrun.
  assert (Htotal0 : match First args with
                    | Some first => Int32.wrap (c + first)
                    | None => c
                    end = Int32.wrap (c + n)).
  { unfold limitOf in Hlimit. destruct (First args) as [first|]; subst n; [done|].
    rewrite Z.add_0_r. symmetry. apply wrap_in_range.
    unfold Int32.InRange, Int32.min. lia. }
  rewrite Htotal0 in Hrun. cbv zeta in Hrun. clear Htotal0.
  split; intros Htotal.
  - rewrite wrap_in_range in Hrun by (unfold Int32.InRange, Int32.min, Int32.max in *; lia).
    unfold readsOnlyThePage.
    destruct (Z_le_gt_dec (c + n) (Z.of_nat (length l))) as [Hhit|Hmiss].
    + rewrite (readFileDiffs_upto (c + n) l [] 0 (Z.to_nat (c + n))) in Hrun
        by (cbn [length]; lia).
      eexists _, _. split; [exact Hrun|]. cbn.
      repeat split.
      * intros Hnext. apply Nat.ltb_lt in Hnext. lia.
      * intros Hlt. apply Nat.ltb_lt. lia.
      * do 2 f_equal. lia.
      * lia.
    + rewrite (readFileDiffs_all (c + n) l [] 0) in Hrun by (cbn [length]; lia).
      eexists _, _. split; [exact Hrun|]. cbn.
      repeat split.
      * by rewrite take_ge by lia.
      * discriminate.
      * lia.
      * by rewrite drop_ge by lia.
      * lia.
  - rewrite wrap_in_range in Hrun by (unfold Int32.InRange, Int32.min, Int32.max in *; lia).
    rewrite (readFileDiffs_all (c + n) l [] 0) in Hrun by (cbn [length]; lia).
    unfold readsEverything.
    eexists _, _. split; [exact Hrun|]. cbn.
    repeat split. lia.
Qed.

(** C3, as amended.  A cursor that [strconv.ParseInt] accepts as a
    negative number is clamped to offset zero: the results are those of
    the request for the first page, with zero as offset. *)
Theorem negative_cursor_is_page_one (patch : Patch.t) (first : option Z)
    (cursor : string) (z : Z) :
  strconv.ParseInt cursor 0 32 = (z, None) ->
  z < 0 ->
  servedAsPageOne patch first cursor
  /\ snd (fst (fst (fst (fileDiffConnectionCompute patch
        (FileDiffsConnectionArgs.mk first (Some cursor)) Captured.init)))) = 0.
Proof.
  intros Hparse Hneg.
  assert (Hsame :
    computeOnce patch (FileDiffsConnectionArgs.mk first (Some cursor)) Captured.init
    = computeOnce patch (FileDiffsConnectionArgs.mk first None) Captured.init).
  { unfold computeOnce. cbn [After First]. rewrite Hparse.
    replace (z <? 0) with true by lia. reflexivity. }
  unfold servedAsPageOne, fileDiffConnectionCompute, onceDo.
  cbn [Captured.onceDone Captured.init]. rewrite Hsame. split; [reflexivity|].
  cbn [fst snd Captured.afterIdx].
  unfold computeOnce. cbn [After First Captured.afterIdx Captured.init].
  destruct first as [n|];
    destruct (readFileDiffs _ _ 0 _) as [[[fds hn] e] dr]; reflexivity.
Qed.

(** A closure whose [Once] is done answers with what it has stored and
    stays as it is. *)
Lemma fileDiffConnectionCompute_done (patch : Patch.t)
    (args : FileDiffsConnectionArgs.t) (v : Captured.t) :
  Captured.onceDone v = true ->
  fileDiffConnectionCompute patch args v
  = ((Captured.fileDiffs v, Captured.afterIdx v, Captured.hasNextPage v,
      Captured.err v), v).
Proof.
  intros Hdone. unfold fileDiffConnectionCompute, onceDo. by rewrite Hdone.
Qed.

Lemma callAll_done (patch : Patch.t) (argss : list FileDiffsConnectionArgs.t)
    (v : Captured.t) :
  Captured.onceDone v = true ->
  callAll patch argss v
  = (repeat (Captured.fileDiffs v, Captured.afterIdx v, Captured.hasNextPage v,
             Captured.err v) (length argss), v).
Proof.
  intros Hdone. induction argss as [|args argss IH]; [reflexivity|].
  cbn [callAll]. rewrite fileDiffConnectionCompute_done by done.
  by rewrite IH.
Qed.

Lemma computeOnce_computations (patch : Patch.t) (args : FileDiffsConnectionArgs.t)
    (v : Captured.t) :
  Captured.computations (fst (computeOnce patch args v)) = S (Captured.computations v).
Proof.
  unfold computeOnce.
  destruct (After args) as [after|];
    [destruct (strconv.ParseInt after 0 32) as [z [e|]]|];
    try reflexivity;
    destruct (readFileDiffs _ _ 0 _) as [[[fds hn] e] dr]; reflexivity.
Qed.

(** C4.  After the first call of the closure of a patch, with any
    arguments, every later call, with any arguments, returns the file
    diffs, the offset, the next-page flag and the error that the first call
    returned, a stored parse error included, and leaves the closure as it
    is: the computation has run once and does not run again. *)
Theorem fileDiffConnectionCompute_once (patch : Patch.t)
    (args : FileDiffsConnectionArgs.t) (later : list FileDiffsConnectionArgs.t) :
  let '(r, v) := fileDiffConnectionCompute patch args Captured.init in
  callAll patch later v = (repeat r (length later), v)
  /\ Captured.computations v = 1%nat
  /\ r = (Captured.fileDiffs v, Captured.afterIdx v, Captured.hasNextPage v,
          Captured.err v).
Proof.
  unfold fileDiffConnectionCompute at 1. unfold onceDo.
  cbn [Captured.onceDone Captured.init].
  pose proof (computeOnce_computations patch args Captured.init) as Hran.
  destruct (fst (computeOnce patch args Captured.init))
    as [done fds idx hn e ran] eqn:Hv.
  cbn in Hran |- *. subst ran.
  split; [|split; reflexivity].
  by rewrite callAll_done.
Qed.

End FileDiffConnectionFacts.

(** C3, counterexample.  With a cursor that is not a number the
    computation ends before it reads the patch: the request has no error
    and no file diff, where the first page has one. *)
Lemma malformed_cursor_is_not_page_one :
  snd (strconv.ParseInt "abc" 0 32) <> None
  /\ fst (@fileDiffConnectionCompute exampleParser twoFilePatch
            (FileDiffsConnectionArgs.mk (Some 1) (Some "abc"%string)) Captured.init)
     = ([], 0, false, None)
  /\ fst (@fileDiffConnectionCompute exampleParser twoFilePatch
            (FileDiffsConnectionArgs.mk (Some 1) None) Captured.init)
     = ([FileDiff.mk "a" "a" []], 0, true, None)
  /\ ~ @servedAsPageOne exampleParser twoFilePatch (Some 1) "abc".
Proof.
  split; [|split; [|split]].
  - vm_compute. discriminate.
  - vm_compute. reflexivity.
  - vm_compute. reflexivity.
  - unfold servedAsPageOne. vm_compute. discriminate.
Qed.

Lemma negative_cursor_is_page_one_witness :
  @servedAsPageOne exampleParser twoFilePatch (Some 1) "-5"
  /\ snd (fst (fst (fst (@fileDiffConnectionCompute exampleParser twoFilePatch
        (FileDiffsConnectionArgs.mk (Some 1) (Some "-5"%string)) Captured.init)))) = 0.
Proof.
  apply (@negative_cursor_is_page_one exampleParser twoFilePatch (Some 1) "-5" (-5)).
  - vm_compute. reflexivity.
  - lia.
Defined.

(** C6, counterexample.  With limit zero at offset zero the computation
    does not stop after one record: it reads both records of the patch and
    the end of the stream, and reports no next page. *)
Lemma zero_limit_reads_everything :
  effectiveOffset (FileDiffsConnectionArgs.mk (Some 0) None) = Some 0
  /\ @NewMultiFileDiffReader exampleParser (Patch.Diff twoFilePatch) = streamOf twoFiles
  /\ @readsEverything exampleParser twoFilePatch
       (FileDiffsConnectionArgs.mk (Some 0) None) twoFiles
  /\ ~ @readsOnlyThePage exampleParser twoFilePatch
         (FileDiffsConnectionArgs.mk (Some 0) None) twoFiles 0 0.
Proof.
  split; [reflexivity|]. split; [reflexivity|]. split.
  - unfold readsEverything. eexists _, _. split; [vm_compute; reflexivity|].
    cbn. repeat split.
  - unfold readsOnlyThePage. intros (v & dr & Hrun & _ & _ & Hnext & _).
    vm_compute in Hrun. injection Hrun as <- _.
    cbn in Hnext. destruct Hnext as [_ Hnext].
    discriminate Hnext. lia.
Qed.

Lemma computeOnce_reads_page_witness :
  @readsOnlyThePage exampleParser twoFilePatch
    (FileDiffsConnectionArgs.mk (Some 1) (Some "0"%string)) twoFiles 0 1.
Proof.
  apply (@computeOnce_reads_page exampleParser twoFilePatch
           (FileDiffsConnectionArgs.mk (Some 1) (Some "0"%string)) twoFiles 0 1
           eq_refl eq_refl eq_refl).
  unfold Int32.max. lia.
Defined.

Section PagingFacts.
Context `{DiffParser}.

(** One page of the client: the results of a new closure on the cursor
    that [strconv.Itoa] wrote for the offset [c]. *)
Lemma page_request (patch : Patch.t) (l : list FileDiff.t) (c N : Z) :
  NewMultiFileDiffReader (Patch.Diff patch) = streamOf l ->
  0 <= c <= Int32.max ->
  0 < N <= Int32.max ->
  fst (fileDiffConnectionCompute patch
         (FileDiffsConnectionArgs.mk (Some N) (Some (strconv.Itoa c))) Captured.init)
  = if c + N <? Z.of_nat (length l)
    then if c + N <=? Int32.max
         then (take (Z.to_nat (c + N)) l, c, true, None)
         else (l, c, false, None)
    else (l, c, false, None).
Proof.
  intros Hstream Hc HN.
  assert (Hoff : effectiveOffset
                   (FileDiffsConnectionArgs.mk (Some N) (Some (strconv.Itoa c)))
                 = Some c).
  { unfold effectiveOffset. cbn [FileDiffsConnectionArgs.After].
    rewrite ParseInt_Itoa by lia. f_equal. lia. }
  destruct (computeOnce_offset patch _ c Hoff) as [_ Hrun].
  cbn [FileDiffsConnectionArgs.First] in Hrun. rewrite Hstream in Hrun.
  cbv zeta in Hrun.
  unfold fileDiffConnectionCompute, onceDo. cbn [Captured.onceDone Captured.init].
  unfold Int32.max in *.
  destruct (Z.leb_spec (c + N) 2147483647) as [Hfits|Hover].
  - rewrite wrap_in_range in Hrun by (unfold Int32.InRange, Int32.min, Int32.max; lia).
    destruct (Z.ltb_spec (c + N) (Z.of_nat (length l))) as [Hlt|Hge].
    + rewrite (readFileDiffs_upto (c + N) l [] 0 (Z.to_nat (c + N))) in Hrun
        by (cbn [length]; lia).
      replace (Z.to_nat (c + N) <? length l)%nat with true in Hrun
        by (symmetry; apply Nat.ltb_lt; lia).
      rewrite Hrun. reflexivity.
    + destruct (Z.eq_dec (c + N) (Z.of_nat (length l))) as [Heq|Hne].
      * rewrite (readFileDiffs_upto (c + N) l [] 0 (Z.to_nat (c + N))) in Hrun
          by (cbn [length]; lia).
        replace (Z.to_nat (c + N) <? length l)%nat with false in Hrun
          by (symmetry; apply Nat.ltb_ge; lia).
        rewrite take_ge in Hrun by lia.
        rewrite Hrun. reflexivity.
      * rewrite (readFileDiffs_all (c + N) l [] 0) in Hrun by (cbn [length]; lia).
        rewrite Hrun. reflexivity.
  - assert (Hwrap : Int32.wrap (c + N) < 0).
    { unfold Int32.wrap.
      replace (c + N + 2147483648) with ((c + N - 2147483648) + 1 * 4294967296) by lia.
      rewrite Z.mod_add by lia. rewrite Z.mod_small by lia. lia. }
    rewrite (readFileDiffs_all (Int32.wrap (c + N)) l [] 0) in Hrun
      by (cbn [length]; lia).
    rewrite Hrun. cbn. by destruct (c + N <? Z.of_nat (length l)).
Qed.

(** From the offset [c] the client gets the file diffs from [c] on. *)
Lemma requestPages_from (patch : Patch.t) (l : list FileDiff.t) (N : Z) :
  NewMultiFileDiffReader (Patch.Diff patch) = streamOf l ->
  0 < N <= Int32.max ->
  Z.of_nat (length l) <= Int32.max ->
  forall (fuel : nat) (c : Z),
    0 <= c <= Int32.max ->
    c <= Z.of_nat (length l) ->
    Z.of_nat (length l) - c < Z.of_nat fuel ->
    requestPages fuel patch (Some N) (Some (strconv.Itoa c))
    = Pages (drop (Z.to_nat c) l).
Proof.
  intros Hstream HN Hsize.
  induction fuel as [|fuel IH]; intros c Hc Hlen Hfuel; [lia|].
  cbn [requestPages].
  rewrite (page_request patch l c N Hstream Hc HN).
  destruct (Z.ltb_spec (c + N) (Z.of_nat (length l))) as [Hlt|Hge];
    [destruct (Z.leb_spec (c + N) Int32.max) as [Hfits|Hover]; [|lia]|].
  - unfold nextCursor, pageWindow.
    rewrite wrap_in_range by (unfold Int32.InRange, Int32.min, Int32.max in *; lia).
    rewrite IH by lia.
    rewrite take_ge by (rewrite length_drop, length_take; lia).
    f_equal. apply drop_take_drop. lia.
  - unfold pageWindow.
    by rewrite take_ge by (rewrite length_drop; lia).
Qed.

(** C7.  On a patch that parses into the file diffs [l] (no more than an
    [int32] counts), the pages that a client gets with a limit [N > 0]
    from the cursor 0 on, each the window of at most [N] file diffs from
    its cursor and each from the cursor after the page before until a page
    has no next page, are, one after the other, the file diffs [l]; and so
    is the one page of a request without limit.  A client that may make
    more requests than there are file diffs comes to the end. *)
Theorem requestPages_concat (patch : Patch.t) (l : list FileDiff.t) (N : Z) (fuel : nat) :
  NewMultiFileDiffReader (Patch.Diff patch) = streamOf l ->
  0 < N <= Int32.max ->
  Z.of_nat (length l) <= Int32.max ->
  (length l < fuel)%nat ->
  requestPages fuel patch (Some N) (Some "0"%string) = Pages l
  /\ requestPages 1 patch None None = Pages l.
Proof.
  intros Hstream HN Hsize Hfuel. split.
  - change "0"%string with (strconv.Itoa 0).
    rewrite (requestPages_from patch l N Hstream HN Hsize fuel 0)
      by (unfold Int32.max; lia).
    reflexivity.
  - cbn [requestPages].
    destruct (computeOnce_offset patch (FileDiffsConnectionArgs.mk None None) 0 eq_refl)
      as [_ Hrun].
    cbn [FileDiffsConnectionArgs.First] in Hrun. rewrite Hstream in Hrun.
    cbv zeta in Hrun.
    rewrite (readFileDiffs_all 0 l [] 0) in Hrun by (cbn [length]; lia).
    unfold fileDiffConnectionCompute, onceDo. cbn [Captured.onceDone Captured.init].
    rewrite Hrun. reflexivity.
Qed.

End PagingFacts.

Lemma requestPages_concat_witness :
  @requestPages exampleParser 3 twoFilePatch (Some 1) (Some "0"%string) = Pages twoFiles
  /\ @requestPages exampleParser 1 twoFilePatch None None = Pages twoFiles.
Proof.
  apply (@requestPages_concat exampleParser twoFilePatch twoFiles 1 3 eq_refl).
  - unfold Int32.max. lia.
  - cbn. unfold Int32.max. lia.
  - cbn. lia.
Defined.

(** ** Fetching a changeset and enqueueing its sync *)

Section ResolverFacts.
Context `{Backend}.

(** C8.  [SyncChangeset] rejects an id that does not unmarshal with the
    error of the unmarshalling, and an id that unmarshals to zero with
    [ErrIDIsZero], in both cases before anything is enqueued; it returns a
    response only when the enqueueing was called and succeeded, and
    without response it returns an error. *)
Theorem SyncChangeset_validates (args : SyncChangesetArgs.t) :
  let '(response, err, events) := SyncChangeset args in
  (forall n e,
      unmarshalChangesetID (SyncChangesetArgs.Changeset args) = (n, Some e) ->
      response = None /\ err = Some e /\ existsb isEnqueue events = false)
  /\ (unmarshalChangesetID (SyncChangesetArgs.Changeset args) = (0, None) ->
      response = None /\ err = Some ErrIDIsZero
      /\ events = [TraceNew "Resolver.SyncChangeset";
                   TraceSetError (Some ErrIDIsZero); TraceFinish])
  /\ (response <> None ->
      exists changesetID,
        unmarshalChangesetID (SyncChangesetArgs.Changeset args) = (changesetID, None)
        /\ changesetID <> 0
        /\ svc_EnqueueChangesetSync changesetID = None
        /\ err = None
        /\ In (EnqueueChangesetSync changesetID) events)
  /\ (response = None -> err <> None).
Proof.
  unfold SyncChangeset, syncChangesetBody.
  destruct (unmarshalChangesetID (SyncChangesetArgs.Changeset args))
    as [changesetID [e|]] eqn:Hid.
  - repeat split; intros; congruence.
  - destruct (Z.eqb_spec changesetID 0) as [->|Hnz].
    + repeat split; intros; congruence.
    + destruct (svc_EnqueueChangesetSync changesetID) as [e|] eqn:Henq.
      * repeat split; intros; congruence.
      * repeat split; intros; try congruence.
        exists changesetID. repeat split; try done.
        cbn. right. left. reflexivity.
Qed.

(** C9, as amended.  For a viewer with read access, [ChangesetByID]
    returns no resolver and no error for an id that unmarshals to zero
    and for an id of which the store has no changeset; for a changeset
    whose repository the repository database does not find for the viewer
    it returns the hidden resolver, without error, and that resolver is
    exposed through the common interface [ChangesetResolver] only, with
    its id, its three timestamps, its state, its campaigns and the two
    variant accessors: none of the methods that the external changeset
    has in addition. *)
Theorem ChangesetByID_outcomes (id : string) (changesetID : Z) :
  allowReadAccess = None ->
  unmarshalChangesetID id = (changesetID, None) ->
  (changesetID = 0 -> ChangesetByID id = (None, None))
  /\ (store_GetChangeset changesetID = Err ErrNoResults ->
      ChangesetByID id = (None, None))
  /\ (forall changeset e,
        changesetID <> 0 ->
        store_GetChangeset changesetID = Ok changeset ->
        db_Repos_Get (Changeset.RepoID changeset) = Err e ->
        IsNotFound e = true ->
        ChangesetByID id = (Some (hiddenChangesetResolver changeset), None)
        /\ exposedMethods (hiddenChangesetResolver changeset)
           = ChangesetResolver_methods
        /\ (forall m, In m (exposedMethods (hiddenChangesetResolver changeset)) ->
                      ~ In m externalOnlyMethods)
        /\ (forall m, In m (exposedMethods (hiddenChangesetResolver changeset)) <->
                      In m idTimestampsState
                      \/ In m [Method.Campaigns; Method.ToExternalChangeset;
                               Method.ToHiddenExternalChangeset])).
Proof.
  intros Hallow Hid. unfold ChangesetByID. rewrite Hallow, Hid.
  split; [|split].
  - intros ->. reflexivity.
  - intros Hnone. rewrite Hnone. by destruct (changesetID =? 0).
  - intros changeset e Hnz Hget Hrepo Hnf.
    replace (changesetID =? 0) with false by lia.
    rewrite Hget, Hrepo, Hnf.
    split; [reflexivity|]. split; [reflexivity|]. split.
    + intros m Hm Hext. cbn in Hm, Hext.
      repeat match goal with
        | Hx : _ \/ _ |- _ => destruct Hx
        | Hx : False |- _ => destruct Hx
        end; congruence.
    + intros m. cbn. tauto.
Qed.

End ResolverFacts.

(** C9, counterexample.  The changeset 7 is in a repository that the
    viewer does not see: [ChangesetByID] returns the hidden resolver, and
    its interface has the campaigns of the changeset, which are not among
    its id, timestamps and state. *)
Lemma hidden_changeset_exposes_campaigns :
  @ChangesetByID exampleBackend "7"
  = (Some (hiddenChangesetResolver (exampleChangeset 7 2)), None)
  /\ In Method.Campaigns (exposedMethods (hiddenChangesetResolver (exampleChangeset 7 2)))
  /\ ~ In Method.Campaigns idTimestampsState
  /\ ~ (forall m, In m (exposedMethods (hiddenChangesetResolver (exampleChangeset 7 2))) ->
                  In m idTimestampsState).
Proof.
  assert (Hnot : ~ In Method.Campaigns idTimestampsState).
  { cbn. intros Hin.
    repeat match goal with
      | Hx : _ \/ _ |- _ => destruct Hx
      | Hx : False |- _ => destruct Hx
      end; discriminate. }
  split; [reflexivity|]. split; [cbn; auto 10|]. split; [exact Hnot|].
  intros Hall. apply Hnot, Hall. cbn. auto 10.
Qed.

Lemma SyncChangeset_validates_witness :
  @SyncChangeset exampleBackend (SyncChangesetArgs.mk "0")
  = (None, Some ErrIDIsZero,
     [TraceNew "Resolver.SyncChangeset"; TraceSetError (Some ErrIDIsZero); TraceFinish]).
Proof.
  pose proof (@SyncChangeset_validates exampleBackend (SyncChangesetArgs.mk "0")) as Hv.
  destruct (@SyncChangeset exampleBackend (SyncChangesetArgs.mk "0"))
    as [[response err] events].
  destruct Hv as (_ & Hzero & _).
  destruct (Hzero eq_refl) as (-> & -> & ->). reflexivity.
Defined.

Lemma ChangesetByID_outcomes_witness :
  @ChangesetByID exampleBackend "7"
  = (Some (hiddenChangesetResolver (exampleChangeset 7 2)), None).
Proof.
  pose proof (@ChangesetByID_outcomes exampleBackend "7" 7 eq_refl eq_refl)
    as (_ & _ & Hhidden).
  apply (Hhidden (exampleChangeset 7 2) (ErrCollab true "repo not found")).
  - lia.
  - reflexivity.
  - reflexivity.
  - reflexivity.
Defined.

(** ** Applying a patch *)

(** The rules for one line of a hunk, where the line numbers do not wrap
    and the original line exists: a removal moves [lastLine] and emits
    nothing, an addition emits its content and leaves [lastLine], any other
    non-empty line emits the original line and moves [lastLine]. *)
Lemma applyHunkLine_rules (contentLines out : list string) (lastLine : Z)
    (line original : string) :
  line <> EmptyString ->
  1 <= lastLine < Int32.max ->
  contentLines !! Z.to_nat (lastLine - 1) = Some original ->
  applyHunkLine contentLines (out, lastLine) line
  = Some (if strings.HasPrefixByte line "-" then (out, lastLine + 1)
          else if strings.HasPrefixByte line "+" then (out ++ [strings.tail line], lastLine)
          else (out ++ [original], lastLine + 1)).
Proof.
  intros Hne Hlast Hlook. unfold Int32.max in Hlast. unfold applyHunkLine.
  replace (String.eqb line "") with false
    by (symmetry; by apply String.eqb_neq).
  destruct (strings.HasPrefixByte line "-"); [by rewrite wrap_in_range
    by (unfold Int32.InRange, Int32.min, Int32.max; lia)|].
  destruct (strings.HasPrefixByte line "+"); [done|].
  rewrite !wrap_in_range by (unfold Int32.InRange, Int32.min, Int32.max; lia).
  unfold slice.index. replace (lastLine - 1 <? 0) with false by lia.
  by rewrite Hlook.
Qed.

(** The two-hunk example of the specification: the lines 1 and 2, the
    replacement of line 3, the lines 4 to 10, the added lines, the context
    lines 11 and 12, and nothing after them. *)
Lemma applyPatch_two_hunks :
  applyPatch twelveLines twoHunks
  = Some (strings.JoinLines
            ["l1"; "l2"; "L3"; "l4"; "l5"; "l6"; "l7"; "l8"; "l9"; "l10";
             "N1"; "N2"; "l11"; "l12"]%string).
Proof. vm_compute. reflexivity. Qed.

(** C5, at the failing input.  The hunk ends on line 2 of a file of three
    lines, so that [lastLine] is 3, the number of lines: the test before
    the last append is false and line 3 is not in the result, although the
    hunks fit the file and are in order. *)
Theorem applyPatch_drops_last_line :
  hunksFit 3 1 (FileDiff.Hunks replaceFirstLine) = true
  /\ applyPatch threeLines replaceFirstLine
     = Some (strings.JoinLines ["A"; "b"]%string)
  /\ applyPatch threeLines replaceFirstLine
     <> Some (strings.JoinLines ["A"; "b"; "c"]%string).
Proof.
  split; [vm_compute; reflexivity|].
  split; [vm_compute; reflexivity|].
  vm_compute. discriminate.
Qed.

Lemma wrap_small (z : Z) : -2147483648 <= z <= 2147483647 -> Int32.wrap z = z.
Proof. intros Hz. apply wrap_in_range. unfold Int32.InRange, Int32.min, Int32.max. lia. Qed.

Section ApplyPatchBounds.
Variable contentLines : list string.
Let n : Z := Z.of_nat (length contentLines).
Hypothesis Hn : n < Int32.max.

(** The lines of a hunk whose original lines exist are applied without
    panic, and [lastLine] moves by the span of the lines. *)
Lemma applyHunkLines_in_bounds (hunkLines : list string) :
  forall (out : list string) (lastLine : Z),
    1 <= lastLine ->
    lastLine + spanOf hunkLines <= n + 1 ->
    exists out',
      applyHunkLines contentLines hunkLines (out, lastLine)
      = Some (out', lastLine + spanOf hunkLines).
Proof.
  unfold Int32.max in Hn.
  induction hunkLines as [|line rest IH]; intros out lastLine Hlo Hhi.
  - exists out. cbn. f_equal. f_equal. unfold spanOf. cbn. lia.
  - unfold spanOf in *. cbn [applyHunkLines applyHunkLine].
    pose proof (Nat2Z.is_nonneg
      (length (filter (fun l => consumesOriginal l = true) rest))) as Hrest.
    destruct (String.eqb line "") eqn:Hempty.
    + rewrite filter_cons_False in * by (unfold consumesOriginal; rewrite Hempty; cbn; congruence).
      by apply IH.
    + destruct (strings.HasPrefixByte line "-") eqn:Hminus.
      * assert (Hplus : strings.HasPrefixByte line "+" = false).
        { destruct line as [|ch line']; [done|]. cbn in *.
          apply Ascii.eqb_eq in Hminus as ->. reflexivity. }
        rewrite filter_cons_True in *
          by (unfold consumesOriginal; rewrite Hempty, Hplus; reflexivity).
        cbn [length] in *.
        rewrite wrap_small by lia.
        destruct (IH out (lastLine + 1)) as [out' Hout]; [lia|lia|].
        exists out'. rewrite Hout. do 2 f_equal. lia.
      * destruct (strings.HasPrefixByte line "+") eqn:Hplus.
        -- rewrite filter_cons_False in *
             by (unfold consumesOriginal; rewrite Hempty, Hplus; cbn; congruence).
           by apply IH.
        -- rewrite filter_cons_True in *
             by (unfold consumesOriginal; rewrite Hempty, Hplus; reflexivity).
           cbn [length] in *.
           rewrite !wrap_small by lia.
           unfold slice.index. replace (lastLine - 1 <? 0) with false by lia.
           destruct (contentLines !! Z.to_nat (lastLine - 1)) as [original|] eqn:Hlook.
           ++ destruct (IH (out ++ [original]) (lastLine + 1)) as [out' Hout]; [lia|lia|].
              exists out'. rewrite Hout. do 2 f_equal. lia.
           ++ apply lookup_ge_None in Hlook. subst n. lia.
Qed.

(** Hunks that fit the file are applied without panic, and [lastLine]
    stays within the file or one line after it. *)
Lemma applyHunks_in_bounds (hunks : list Hunk.t) :
  forall (out : list string) (lastLine : Z),
    1 <= lastLine <= n + 1 ->
    hunksFit n lastLine hunks = true ->
    exists out' lastLine',
      applyHunks contentLines hunks (out, lastLine) = Some (out', lastLine')
      /\ 1 <= lastLine' <= n + 1.
Proof.
  unfold Int32.max in Hn.
  induction hunks as [|hunk rest IH]; intros out lastLine Hlast Hfit.
  - exists out, lastLine. split; [reflexivity|lia].
  - cbn [hunksFit] in Hfit.
    apply andb_prop in Hfit as [Hfit Hrest]. apply andb_prop in Hfit as [Hstart Hend].
    apply Z.leb_le in Hstart, Hend.
    fold (spanOf (strings.SplitLines (Hunk.Body hunk))) in *.
    unfold origSpan in *. fold (spanOf (strings.SplitLines (Hunk.Body hunk))) in *.
    pose proof (Nat2Z.is_nonneg
      (length (filter (fun l => consumesOriginal l = true)
                 (strings.SplitLines (Hunk.Body hunk))))) as Hspan.
    fold (spanOf (strings.SplitLines (Hunk.Body hunk))) in Hspan.
    cbn [applyHunks applyHunk].
    destruct (Z.eqb_spec (Hunk.OrigStartLine hunk) 0) as [Hzero|Hnonzero];
      [|destruct (Z.eqb_spec (Hunk.OrigStartLine hunk) lastLine) as [Hsame|Hhole]];
      cbn [negb andb].
    + destruct (applyHunkLines_in_bounds (strings.SplitLines (Hunk.Body hunk))
                  out lastLine) as [out1 Hout1]; [lia|lia|].
      rewrite Hout1. apply IH; [lia|exact Hrest].
    + rewrite Hsame in *.
      destruct (applyHunkLines_in_bounds (strings.SplitLines (Hunk.Body hunk))
                  out lastLine) as [out1 Hout1]; [lia|lia|].
      rewrite Hout1. apply IH; [lia|exact Hrest].
    + rewrite !wrap_small by lia.
      unfold slice.sub. fold n.
      replace ((0 <=? lastLine - 1) && (lastLine - 1 <=? Hunk.OrigStartLine hunk - 1)
               && (Hunk.OrigStartLine hunk - 1 <=? n)) with true
        by (symmetry; rewrite !andb_true_iff; lia).
      rewrite length_take, length_drop.
      assert (Hlen :
        Z.of_nat (Z.to_nat (Hunk.OrigStartLine hunk - 1 - (lastLine - 1))
                  `min` (length contentLines - Z.to_nat (lastLine - 1)))
        = Hunk.OrigStartLine hunk - lastLine) by (subst n; lia).
      rewrite Hlen. rewrite (wrap_small (_ - _)) by lia.
      replace (lastLine + (Hunk.OrigStartLine hunk - lastLine))
        with (Hunk.OrigStartLine hunk) by lia.
      rewrite wrap_small by lia.
      destruct (applyHunkLines_in_bounds (strings.SplitLines (Hunk.Body hunk))
                  (out ++ take (Z.to_nat (Hunk.OrigStartLine hunk - 1 - (lastLine - 1)))
                            (drop (Z.to_nat (lastLine - 1)) contentLines))
                  (Hunk.OrigStartLine hunk)) as [out1 Hout1]; [lia|lia|].
      rewrite Hout1. apply IH; [lia|exact Hrest].
Qed.

End ApplyPatchBounds.

(** C10, counterexample.  The two hunks have the original start lines 1
    and 2, strictly ascending, and every original line that they touch is
    a line of the file; but the second starts within the lines of the
    first.  After the first hunk [lastLine] is 4, and the hole before the
    second hunk is the slice [contentLines[3:1]], which is out of
    range. *)
Lemma overlapping_hunks_panic :
  startsAscend (FileDiff.Hunks overlappingHunks) = true
  /\ touchedLinesExist (Z.of_nat (length (strings.SplitLines fourLines)))
       (FileDiff.Hunks overlappingHunks) = true
  /\ hunksFit (Z.of_nat (length (strings.SplitLines fourLines))) 1
       (FileDiff.Hunks overlappingHunks) = false
  /\ slice.sub (strings.SplitLines fourLines) 3 1 = None
  /\ applyPatch fourLines overlappingHunks = None.
Proof. repeat split; vm_compute; reflexivity. Qed.

(** C10, as amended.  [applyPatch] panics on some inputs: on a hunk whose
    context lines go past the end of the file, where the index
    [contentLines[lastLine-1]] is out of range, and on a hunk that starts
    past the end of the file, where the slice of the hole is out of range.
    When every hunk starts at or after the line that follows the original
    lines of the hunk before it, so that the hunks are in ascending order
    and do not overlap, and every original line that they touch exists
    ([hunksFit], on a file of fewer than [2^31 - 1] lines), no index and
    no slice is out of range: [applyPatch] returns a content. *)
Theorem applyPatch_in_bounds :
  applyPatch "a" contextPastEnd = None
  /\ applyPatch "a" startPastEnd = None
  /\ forall (fileContent : string) (fileDiff : FileDiff.t),
       Z.of_nat (length (strings.SplitLines fileContent)) < Int32.max ->
       hunksFit (Z.of_nat (length (strings.SplitLines fileContent))) 1
         (FileDiff.Hunks fileDiff) = true ->
       exists newContent, applyPatch fileContent fileDiff = Some newContent.
Proof.
  split; [vm_compute; reflexivity|].
  split; [vm_compute; reflexivity|].
  intros fileContent fileDiff Hsize Hfit.
  unfold applyPatch.
  set (contentLines := strings.SplitLines fileContent) in *.
  destruct (applyHunks_in_bounds contentLines Hsize (FileDiff.Hunks fileDiff) [] 1)
    as (out & lastLine & Happly & Hlast); [lia|exact Hfit|].
  rewrite Happly.
  unfold Int32.max in Hsize.
  rewrite !wrap_small by lia.
  destruct ((0 <? Z.of_nat (length contentLines))
            && negb (Z.of_nat (length contentLines) =? lastLine)); [|eauto].
  unfold slice.from, slice.sub.
  replace ((0 <=? lastLine - 1) && (lastLine - 1 <=? Z.of_nat (length contentLines))
           && (Z.of_nat (length contentLines) <=? Z.of_nat (length contentLines)))
    with true by (symmetry; rewrite !andb_true_iff; lia).
  eauto.
Qed.

Lemma applyPatch_in_bounds_witness :
  exists newContent, applyPatch twelveLines twoHunks = Some newContent.
Proof.
  apply (proj2 (proj2 applyPatch_in_bounds) twelveLines twoHunks).
  - vm_compute. reflexivity.
  - vm_compute. reflexivity.
Defined.

(** ** More on applying a patch *)

Lemma SplitLines_not_nil (s : string) : strings.SplitLines s <> [].
Proof.
  destruct s as [|c s]; cbn; [discriminate|].
  destruct (Ascii.eqb c strings.newline); [discriminate|].
  destruct (strings.SplitLines s); discriminate.
Qed.

(** Joining the lines of a content gives the content back. *)
Lemma JoinLines_SplitLines (s : string) :
  strings.JoinLines (strings.SplitLines s) = s.
Proof.
  induction s as [|c s IH]; [reflexivity|].
  cbn [strings.SplitLines].
  pose proof (SplitLines_not_nil s) as Hne.
  destruct (strings.SplitLines s) as [|piece pieces] eqn:Hsplit; [done|].
  destruct (Ascii.eqb c strings.newline) eqn:Hc.
  - apply Ascii.eqb_eq in Hc as ->.
    change (strings.JoinLines (EmptyString :: piece :: pieces))
      with (String strings.newline (strings.JoinLines (piece :: pieces))).
    by rewrite IH.
  - destruct pieces as [|piece' pieces].
    + cbn in IH |- *. by rewrite IH.
    + change (strings.JoinLines (String c piece :: piece' :: pieces))
        with (String c (piece +:+ String strings.newline
                                   (strings.JoinLines (piece' :: pieces)))).
      f_equal. exact IH.
Qed.

(** X1.  A diff without hunks leaves a file of several lines as it is,
    and turns a content without newline into the empty content: with
    [lastLine] at 1, the test before the last append is false for a file
    of one line. *)
Theorem applyPatch_no_hunks (fileContent origName newName : string) :
  Z.of_nat (length (strings.SplitLines fileContent)) < Int32.max ->
  applyPatch fileContent (FileDiff.mk origName newName [])
  = Some (if (length (strings.SplitLines fileContent) =? 1)%nat
          then EmptyString else fileContent).
Proof.
  intros Hsize. unfold Int32.max in Hsize. unfold applyPatch.
  cbn [FileDiff.Hunks applyHunks].
  pose proof (SplitLines_not_nil fileContent) as Hne.
  pose proof (JoinLines_SplitLines fileContent) as Hjoin.
  set (contentLines := strings.SplitLines fileContent) in *.
  assert (0 < Z.of_nat (length contentLines)) by (destruct contentLines; [done|cbn; lia]).
  rewrite !wrap_small by lia.
  replace (0 <? Z.of_nat (length contentLines)) with true by lia.
  cbn [andb].
  destruct (Nat.eqb_spec (length contentLines) 1) as [Hone|Hmore].
  - replace (Z.of_nat (length contentLines) =? 1) with true by lia. reflexivity.
  - replace (Z.of_nat (length contentLines) =? 1) with false by lia.
    cbn [negb]. unfold slice.from, slice.sub.
    replace ((0 <=? 1 - 1) && (1 - 1 <=? Z.of_nat (length contentLines))
             && (Z.of_nat (length contentLines) <=? Z.of_nat (length contentLines)))
      with true by (symmetry; rewrite !andb_true_iff; lia).
    cbn [app]. change (Z.to_nat (1 - 1)) with 0%nat. rewrite drop_0.
    rewrite take_ge by lia. by rewrite Hjoin.
Qed.

Lemma applyPatch_no_hunks_witness :
  applyPatch threeLines (FileDiff.mk "f" "f" []) = Some threeLines
  /\ applyPatch "hello" (FileDiff.mk "f" "f" []) = Some EmptyString.
Proof.
  split.
  - apply (applyPatch_no_hunks threeLines "f" "f"). vm_compute. reflexivity.
  - apply (applyPatch_no_hunks "hello" "f" "f"). vm_compute. reflexivity.
Defined.

(** Lines that only add are applied without a look at the file: the
    added lines come behind what is there and [lastLine] stays. *)
Lemma applyHunkLines_adds (contentLines hunkLines out : list string) (lastLine : Z) :
  forallb addsOnly hunkLines = true ->
  applyHunkLines contentLines hunkLines (out, lastLine)
  = Some (out ++ addedLines hunkLines, lastLine).
Proof.
  revert out. induction hunkLines as [|line rest IH]; intros out Hadds.
  - cbn. by rewrite app_nil_r.
  - cbn [forallb] in Hadds. apply andb_prop in Hadds as [Hline Hrest].
    unfold addsOnly in Hline. unfold addedLines in *.
    cbn [applyHunkLines applyHunkLine].
    destruct (String.eqb line "") eqn:Hempty.
    + rewrite filter_cons_False by congruence. by apply IH.
    + cbn [orb] in Hline.
      assert (Hminus : strings.HasPrefixByte line "-" = false).
      { destruct line as [|ch line']; [done|]. cbn in *.
        apply Ascii.eqb_eq in Hline as ->. reflexivity. }
      rewrite Hminus, Hline.
      rewrite filter_cons_True by done.
      rewrite IH by done. cbn [map]. by rewrite <- app_assoc.
Qed.

(** X2.  Hunks that only add lines and stand at the start of the file
    (original start line 0, as for a new file, or 1) put their lines, in
    order and without their markers, before the content: for a new file,
    whose old content is empty, the result is the added lines and nothing
    else. *)
Theorem applyPatch_additions_first (fileContent origName newName : string)
    (hunks : list Hunk.t) :
  Z.of_nat (length (strings.SplitLines fileContent)) < Int32.max ->
  Forall (fun hunk =>
            (Hunk.OrigStartLine hunk = 0 \/ Hunk.OrigStartLine hunk = 1)
            /\ forallb addsOnly (strings.SplitLines (Hunk.Body hunk)) = true) hunks ->
  let added :=
    concat (map (fun hunk => addedLines (strings.SplitLines (Hunk.Body hunk))) hunks) in
  applyPatch fileContent (FileDiff.mk origName newName hunks)
  = Some (strings.JoinLines
            (added ++ if (length (strings.SplitLines fileContent) =? 1)%nat
                      then [] else strings.SplitLines fileContent))
  /\ (fileContent = EmptyString ->
      applyPatch fileContent (FileDiff.mk origName newName hunks)
      = Some (strings.JoinLines added)).
Proof.
  intros Hsize Hhunks added.
  assert (Hmain :
    applyPatch fileContent (FileDiff.mk origName newName hunks)
    = Some (strings.JoinLines
              (added ++ if (length (strings.SplitLines fileContent) =? 1)%nat
                        then [] else strings.SplitLines fileContent))).
  { unfold Int32.max in Hsize. unfold applyPatch. cbn [FileDiff.Hunks].
    pose proof (SplitLines_not_nil fileContent) as Hne.
    set (contentLines := strings.SplitLines fileContent) in *.
    assert (Hloop : forall out,
      applyHunks contentLines hunks (out, 1) = Some (out ++ added, 1)).
    { subst added. clear Hsize Hne.
      induction Hhunks as [|hunk rest [Hstart Hadds] _ IH]; intros out.
      - cbn. by rewrite app_nil_r.
      - cbn [applyHunks applyHunk map concat].
        replace (negb (Hunk.OrigStartLine hunk =? 0)
                 && negb (Hunk.OrigStartLine hunk =? 1)) with false
          by (destruct Hstart as [-> | ->]; reflexivity).
        rewrite applyHunkLines_adds by done.
        rewrite IH. by rewrite <- app_assoc. }
    rewrite Hloop. cbn [app].
    assert (0 < Z.of_nat (length contentLines))
      by (destruct contentLines; [done|cbn; lia]).
    rewrite !wrap_small by lia.
    replace (0 <? Z.of_nat (length contentLines)) with true by lia.
    cbn [andb].
    destruct (Nat.eqb_spec (length contentLines) 1) as [Hone|Hmore].
    - replace (Z.of_nat (length contentLines) =? 1) with true by lia.
      cbn [negb]. by rewrite app_nil_r.
    - replace (Z.of_nat (length contentLines) =? 1) with false by lia.
      cbn [negb]. unfold slice.from, slice.sub.
      replace ((0 <=? 1 - 1) && (1 - 1 <=? Z.of_nat (length contentLines))
               && (Z.of_nat (length contentLines) <=? Z.of_nat (length contentLines)))
        with true by (symmetry; rewrite !andb_true_iff; lia).
      change (Z.to_nat (1 - 1)) with 0%nat. rewrite drop_0.
      by rewrite take_ge by lia. }
  split; [exact Hmain|].
  intros ->. rewrite Hmain. cbn. by rewrite app_nil_r.
Qed.

Lemma applyPatch_additions_first_witness :
  applyPatch EmptyString
    (FileDiff.mk "/dev/null" "f"
       [Hunk.mk 0 0 1 2 (strings.JoinLines ["+x"; "+y"; ""]%string)])
  = Some (strings.JoinLines ["x"; "y"]%string).
Proof.
  apply (applyPatch_additions_first EmptyString "/dev/null" "f"
           [Hunk.mk 0 0 1 2 (strings.JoinLines ["+x"; "+y"; ""]%string)]).
  - vm_compute. reflexivity.
  - repeat constructor.
  - reflexivity.
Defined.

(** A line is applied by its kind alone: the text of a removal and of a
    context line is not compared with the file. *)
Lemma applyHunkLine_sameKind (contentLines : list string) (st : list string * Z)
    (a b : string) :
  sameKind a b ->
  applyHunkLine contentLines st a = applyHunkLine contentLines st b.
Proof.
  intros Hkind. destruct st as [out lastLine]. unfold applyHunkLine.
  destruct Hkind as [[-> ->] | [[Ha Hb] | [[Ha ->] | (Ha & Hb & Hma & Hmb)]]];
    [reflexivity| |reflexivity|].
  - assert (String.eqb a "" = false) as -> by (by destruct a).
    assert (String.eqb b "" = false) as -> by (by destruct b).
    by rewrite Ha, Hb.
  - unfold consumesOriginal in Ha, Hb.
    apply andb_prop in Ha as [Hea Hpa]. apply andb_prop in Hb as [Heb Hpb].
    apply negb_true_iff in Hea, Hpa, Heb, Hpb.
    by rewrite Hea, Heb, Hma, Hmb, Hpa, Hpb.
Qed.

Lemma applyHunkLines_sameKind (contentLines : list string) (l1 l2 : list string) :
  Forall2 sameKind l1 l2 ->
  forall st, applyHunkLines contentLines l1 st = applyHunkLines contentLines l2 st.
Proof.
  induction 1 as [|a b l1 l2 Hkind _ IH]; intros st; [reflexivity|].
  cbn [applyHunkLines]. rewrite (applyHunkLine_sameKind contentLines st a b Hkind).
  destruct (applyHunkLine contentLines st b); [apply IH|reflexivity].
Qed.

(** X3.  [applyPatch] does not compare a diff with the file: two diffs
    whose hunks start at the same lines and whose lines differ only in the
    text of removed and context lines give the same result on every
    content, a panic included. *)
Theorem applyPatch_ignores_original_text (fileContent : string) (d1 d2 : FileDiff.t) :
  Forall2 sameShape (FileDiff.Hunks d1) (FileDiff.Hunks d2) ->
  applyPatch fileContent d1 = applyPatch fileContent d2.
Proof.
  intros Hshape. unfold applyPatch.
  assert (Hloop : forall st,
    applyHunks (strings.SplitLines fileContent) (FileDiff.Hunks d1) st
    = applyHunks (strings.SplitLines fileContent) (FileDiff.Hunks d2) st).
  { induction Hshape as [|h1 h2 r1 r2 [Hstart Hlines] _ IH]; intros st; [reflexivity|].
    cbn [applyHunks]. unfold applyHunk. destruct st as [out lastLine].
    rewrite Hstart.
    destruct (if negb (Hunk.OrigStartLine h2 =? 0)
                 && negb (Hunk.OrigStartLine h2 =? lastLine)
              then _ else _) as [st'|]; [|reflexivity].
    rewrite (applyHunkLines_sameKind _ _ _ Hlines st').
    destruct (applyHunkLines _ _ st'); [apply IH|reflexivity]. }
  by rewrite Hloop.
Qed.

Lemma applyPatch_ignores_original_text_witness :
  applyPatch threeLines
    (FileDiff.mk "f" "f"
       [Hunk.mk 1 2 1 2 (strings.JoinLines ["-zzz"; "+A"; " not b"; ""]%string)])
  = applyPatch threeLines replaceFirstLine.
Proof.
  apply applyPatch_ignores_original_text.
  constructor; [|constructor].
  split; [reflexivity|].
  cbn. repeat constructor; unfold sameKind; cbn; tauto.
Defined.

Section ApplyContext.
Variable contentLines : list string.
Let n : Z := Z.of_nat (length contentLines).
Hypothesis Hn : n < Int32.max.

(** Context lines copy the file: from the first [lastLine - 1] lines of
    the file they lead to the first lines up to the new [lastLine]. *)
Lemma applyHunkLines_context (hunkLines : list string) :
  forall (lastLine : Z),
    forallb contextOnly hunkLines = true ->
    1 <= lastLine ->
    lastLine + spanOf hunkLines <= n + 1 ->
    applyHunkLines contentLines hunkLines
      (take (Z.to_nat (lastLine - 1)) contentLines, lastLine)
    = Some (take (Z.to_nat (lastLine + spanOf hunkLines - 1)) contentLines,
            lastLine + spanOf hunkLines).
Proof.
  unfold Int32.max in Hn.
  induction hunkLines as [|line rest IH]; intros lastLine Hctx Hlo Hhi.
  - cbn. unfold spanOf. cbn. do 3 f_equal; lia.
  - cbn [forallb] in Hctx. apply andb_prop in Hctx as [Hline Hrest].
    unfold contextOnly in Hline. unfold spanOf in *.
    pose proof (Nat2Z.is_nonneg
      (length (filter (fun l => consumesOriginal l = true) rest))) as Hnonneg.
    cbn [applyHunkLines applyHunkLine].
    destruct (String.eqb line "") eqn:Hempty.
    + rewrite filter_cons_False in *
        by (unfold consumesOriginal; rewrite Hempty; cbn; congruence).
      by apply IH.
    + cbn [orb] in Hline. apply andb_prop in Hline as [Hminus Hplus].
      apply negb_true_iff in Hminus, Hplus. rewrite Hminus, Hplus.
      rewrite filter_cons_True in *
        by (unfold consumesOriginal; rewrite Hempty, Hplus; reflexivity).
      cbn [length] in *.
      rewrite !wrap_small by lia.
      unfold slice.index. replace (lastLine - 1 <? 0) with false by lia.
      destruct (contentLines !! Z.to_nat (lastLine - 1)) as [original|] eqn:Hlook;
        [|apply lookup_ge_None in Hlook; subst n; lia].
      rewrite <- (take_S_r _ _ _ Hlook).
      replace (S (Z.to_nat (lastLine - 1))) with (Z.to_nat (lastLine + 1 - 1)) by lia.
      rewrite IH by (done || lia).
      f_equal. f_equal; [f_equal; lia|lia].
Qed.

(** Hunks of context lines that fit copy the file up to where they end. *)
Lemma applyHunks_context (hunks : list Hunk.t) :
  forall (lastLine : Z),
    Forall (fun hunk => forallb contextOnly (strings.SplitLines (Hunk.Body hunk)) = true)
      hunks ->
    1 <= lastLine <= n + 1 ->
    hunksFit n lastLine hunks = true ->
    applyHunks contentLines hunks (take (Z.to_nat (lastLine - 1)) contentLines, lastLine)
    = Some (take (Z.to_nat (cursorAfter lastLine hunks - 1)) contentLines,
            cursorAfter lastLine hunks)
      /\ 1 <= cursorAfter lastLine hunks <= n + 1.
Proof.
  unfold Int32.max in Hn.
  induction hunks as [|hunk rest IH]; intros lastLine Hctx Hlast Hfit.
  - cbn. split; [reflexivity|lia].
  - inversion Hctx as [|? ? Hhunk Hrest']; subst.
    cbn [hunksFit] in Hfit.
    apply andb_prop in Hfit as [Hfit Hrest]. apply andb_prop in Hfit as [Hstart Hend].
    apply Z.leb_le in Hstart, Hend.
    unfold origSpan in *. fold (spanOf (strings.SplitLines (Hunk.Body hunk))) in *.
    pose proof (Nat2Z.is_nonneg
      (length (filter (fun l => consumesOriginal l = true)
                 (strings.SplitLines (Hunk.Body hunk))))) as Hspan.
    fold (spanOf (strings.SplitLines (Hunk.Body hunk))) in Hspan.
    cbn [applyHunks applyHunk cursorAfter].
    unfold origSpan. fold (spanOf (strings.SplitLines (Hunk.Body hunk))).
    destruct (Z.eqb_spec (Hunk.OrigStartLine hunk) 0) as [Hzero|Hnonzero];
      [|destruct (Z.eqb_spec (Hunk.OrigStartLine hunk) lastLine) as [Hsame|Hhole]];
      cbn [negb andb].
    + rewrite applyHunkLines_context by (done || lia).
      apply IH; [done|lia|exact Hrest].
    + rewrite Hsame in *.
      rewrite applyHunkLines_context by (done || lia).
      apply IH; [done|lia|exact Hrest].
    + rewrite !wrap_small by lia.
      unfold slice.sub. fold n.
      replace ((0 <=? lastLine - 1) && (lastLine - 1 <=? Hunk.OrigStartLine hunk - 1)
               && (Hunk.OrigStartLine hunk - 1 <=? n)) with true
        by (symmetry; rewrite !andb_true_iff; lia).
      rewrite length_take, length_drop.
      assert (Hlen :
        Z.of_nat (Z.to_nat (Hunk.OrigStartLine hunk - 1 - (lastLine - 1))
                  `min` (length contentLines - Z.to_nat (lastLine - 1)))
        = Hunk.OrigStartLine hunk - lastLine) by (subst n; lia).
      rewrite Hlen. rewrite (wrap_small (_ - _)) by lia.
      replace (lastLine + (Hunk.OrigStartLine hunk - lastLine))
        with (Hunk.OrigStartLine hunk) by lia.
      rewrite wrap_small by lia.
      rewrite take_take_drop.
      replace (Z.to_nat (lastLine - 1)
               + Z.to_nat (Hunk.OrigStartLine hunk - 1 - (lastLine - 1)))%nat
        with (Z.to_nat (Hunk.OrigStartLine hunk - 1)) by lia.
      rewrite applyHunkLines_context by (done || lia).
      apply IH; [done|lia|exact Hrest].
Qed.

End ApplyContext.

(** X4.  A diff of context lines only, whose hunks fit the file, gives the
    file back, unless the last hunk ends one line before the end of the
    file: then the last line is missing from the result. *)
Theorem applyPatch_context_only (fileContent : string) (fileDiff : FileDiff.t) :
  Z.of_nat (length (strings.SplitLines fileContent)) < Int32.max ->
  Forall (fun hunk => forallb contextOnly (strings.SplitLines (Hunk.Body hunk)) = true)
    (FileDiff.Hunks fileDiff) ->
  hunksFit (Z.of_nat (length (strings.SplitLines fileContent))) 1
    (FileDiff.Hunks fileDiff) = true ->
  applyPatch fileContent fileDiff
  = Some (if cursorAfter 1 (FileDiff.Hunks fileDiff)
             =? Z.of_nat (length (strings.SplitLines fileContent))
          then strings.JoinLines
                 (take (length (strings.SplitLines fileContent) - 1)
                    (strings.SplitLines fileContent))
          else fileContent).
Proof.
  intros Hsize Hctx Hfit.
  pose proof (JoinLines_SplitLines fileContent) as Hjoin.
  pose proof (SplitLines_not_nil fileContent) as Hne.
  unfold applyPatch.
  set (contentLines := strings.SplitLines fileContent) in *.
  assert (0 < Z.of_nat (length contentLines))
    by (destruct contentLines; [done|cbn; lia]).
  destruct (applyHunks_context contentLines Hsize (FileDiff.Hunks fileDiff) 1)
    as [Happly Hcursor]; [done|lia|done|].
  change (Z.to_nat (1 - 1)) with 0%nat in Happly. rewrite take_0 in Happly.
  rewrite Happly.
  unfold Int32.max in Hsize.
  rewrite !wrap_small by lia.
  replace (0 <? Z.of_nat (length contentLines)) with true by lia.
  cbn [andb].
  destruct (Z.eqb_spec (cursorAfter 1 (FileDiff.Hunks fileDiff))
              (Z.of_nat (length contentLines))) as [Hlast|Hnot].
  - rewrite Hlast, Z.eqb_refl. cbn [negb].
    do 3 f_equal. lia.
  - replace (Z.of_nat (length contentLines) =? cursorAfter 1 (FileDiff.Hunks fileDiff))
      with false by lia.
    cbn [negb]. unfold slice.from, slice.sub.
    replace ((0 <=? cursorAfter 1 (FileDiff.Hunks fileDiff) - 1)
             && (cursorAfter 1 (FileDiff.Hunks fileDiff) - 1
                 <=? Z.of_nat (length contentLines))
             && (Z.of_nat (length contentLines) <=? Z.of_nat (length contentLines)))
      with true by (symmetry; rewrite !andb_true_iff; lia).
    rewrite (take_ge (drop _ _)) by (rewrite length_drop; lia).
    by rewrite take_drop, Hjoin.
Qed.

Lemma applyPatch_context_only_witness :
  applyPatch twelveLines
    (FileDiff.mk "f" "f"
       [Hunk.mk 2 2 2 2 (strings.JoinLines [" l2"; " l3"; ""]%string)])
  = Some twelveLines
  /\ applyPatch threeLines
       (FileDiff.mk "f" "f"
          [Hunk.mk 1 2 1 2 (strings.JoinLines [" a"; " b"; ""]%string)])
     = Some (strings.JoinLines ["a"; "b"]%string).
Proof.
  split.
  - apply (applyPatch_context_only twelveLines
             (FileDiff.mk "f" "f"
                [Hunk.mk 2 2 2 2 (strings.JoinLines [" l2"; " l3"; ""]%string)])).
    + vm_compute. reflexivity.
    + repeat constructor.
    + vm_compute. reflexivity.
  - apply (applyPatch_context_only threeLines
             (FileDiff.mk "f" "f"
                [Hunk.mk 1 2 1 2 (strings.JoinLines [" a"; " b"; ""]%string)])).
    + vm_compute. reflexivity.
    + repeat constructor.
    + vm_compute. reflexivity.
Defined.

(** ** The content of a file after its diff *)

(** A call leaves the captured error nil when it was nil, and returns it. *)
Lemma fileDiffVirtualFileContent_err (r : FileDiffResolver.t) (v : CapturedContent.t) :
  CapturedContent.err v = None ->
  CapturedContent.err (snd (fileDiffVirtualFileContent r v)) = None
  /\ forall content err,
       fst (fileDiffVirtualFileContent r v) = Some (content, err) -> err = None.
Proof.
  intros Hnil. unfold fileDiffVirtualFileContent, virtualContentOnce.
  destruct (CapturedContent.onceDone v).
  - cbn. split; [done|]. intros content err [= _ <-]. done.
  - destruct (FileDiffResolver.OldFile r) as [[old|e]|];
      try destruct (applyPatch _ _); cbn;
      (split; [done|]); intros content err Hres; congruence.
Qed.

(** After a call the [Once] is done. *)
Lemma fileDiffVirtualFileContent_done (r : FileDiffResolver.t) (v : CapturedContent.t) :
  CapturedContent.onceDone (snd (fileDiffVirtualFileContent r v)) = true.
Proof.
  unfold fileDiffVirtualFileContent, virtualContentOnce.
  destruct (CapturedContent.onceDone v) eqn:Hdone; [done|].
  destruct (FileDiffResolver.OldFile r) as [[old|e]|];
    try destruct (applyPatch _ _); reflexivity.
Qed.

Lemma virtualContentCalls_done (r : FileDiffResolver.t) (calls : nat)
    (v : CapturedContent.t) :
  CapturedContent.onceDone v = true ->
  virtualContentCalls r calls v
  = (repeat (Some (CapturedContent.newContent v, CapturedContent.err v)) calls, v).
Proof.
  intros Hdone. induction calls as [|calls IH]; [reflexivity|].
  cbn [virtualContentCalls]. unfold fileDiffVirtualFileContent at 1.
  rewrite Hdone. by rewrite IH.
Qed.

(** X5.  The closure of [fileDiffVirtualFileContent] never returns an
    error: the error of fetching the old content is assigned to a variable
    of the inner block, so that a failed fetch gives the empty content
    with a nil error, at the first call and at every later one. *)
Theorem fileDiffVirtualFileContent_never_errors (r : FileDiffResolver.t) (calls : nat) :
  let '(results, _) := virtualContentCalls r calls CapturedContent.init in
  Forall (fun res => forall content err, res = Some (content, err) -> err = None) results
  /\ (forall e, FileDiffResolver.OldFile r = Some (Err e) ->
        results = repeat (Some (EmptyString, None)) calls).
Proof.
  destruct (virtualContentCalls r calls CapturedContent.init) as [results v'] eqn:Hcalls.
  split.
  - assert (Hgen : forall v results v',
              CapturedContent.err v = None ->
              virtualContentCalls r calls v = (results, v') ->
              Forall (fun res => forall content err,
                        res = Some (content, err) -> err = None) results).
    { clear. induction calls as [|calls IH]; intros v results v' Hnil Hrun.
      - cbn in Hrun. injection Hrun as <- _. constructor.
      - cbn [virtualContentCalls] in Hrun.
        destruct (fileDiffVirtualFileContent_err r v Hnil) as [Hnext Hres].
        destruct (fileDiffVirtualFileContent r v) as [res v1].
        cbn [fst snd] in Hnext, Hres.
        destruct (virtualContentCalls r calls v1) as [ress v2] eqn:Hrest.
        injection Hrun as <- _. constructor; [exact Hres|].
        eapply IH; [exact Hnext|exact Hrest]. }
    eapply (Hgen CapturedContent.init); [reflexivity|exact Hcalls].
  - intros e Hold. destruct calls as [|calls]; cbn [virtualContentCalls] in Hcalls.
    + by injection Hcalls as <- _.
    + pose proof (fileDiffVirtualFileContent_done r CapturedContent.init) as Hdone.
      unfold fileDiffVirtualFileContent, virtualContentOnce in Hcalls, Hdone.
      rewrite Hold in Hcalls, Hdone. cbn in Hcalls, Hdone.
      rewrite virtualContentCalls_done in Hcalls by done.
      by injection Hcalls as <- _.
Qed.

Lemma fileDiffVirtualFileContent_never_errors_witness :
  fst (virtualContentCalls
         (FileDiffResolver.mk replaceFirstLine (Some (Err (ErrCollab false "git failed"))))
         2 CapturedContent.init)
  = [Some (EmptyString, None); Some (EmptyString, None)].
Proof.
  pose proof (fileDiffVirtualFileContent_never_errors
                (FileDiffResolver.mk replaceFirstLine
                   (Some (Err (ErrCollab false "git failed")))) 2) as Hx.
  destruct (virtualContentCalls _ 2 CapturedContent.init) as [results v].
  destruct Hx as [_ Hfail]. exact (Hfail _ eq_refl).
Defined.

(** X6.  The closure computes at most once: after the first call every
    later call returns the stored content without error, and the old
    content has been fetched once for an existing file and never for a
    new file.  The first call panics exactly when [applyPatch] does; the
    [Once] is done all the same, and the later calls return the empty
    content.  For a new file the content is that of the diff applied to
    the empty content. *)
Theorem fileDiffVirtualFileContent_once (r : FileDiffResolver.t) (calls : nat) :
  let '(first, v) := fileDiffVirtualFileContent r CapturedContent.init in
  virtualContentCalls r calls v
  = (repeat (Some (CapturedContent.newContent v, None)) calls, v)
  /\ CapturedContent.contentCalls v
     = match FileDiffResolver.OldFile r with Some _ => 1%nat | None => 0%nat end
  /\ (first = None -> CapturedContent.newContent v = EmptyString)
  /\ (forall old, FileDiffResolver.OldFile r = Some (Ok old) ->
        first = option_map (fun c => (c, None))
                  (applyPatch old (FileDiffResolver.FileDiff r)))
  /\ (FileDiffResolver.OldFile r = None ->
        first = option_map (fun c => (c, None))
                  (applyPatch EmptyString (FileDiffResolver.FileDiff r))).
Proof.
  pose proof (fileDiffVirtualFileContent_done r CapturedContent.init) as Hdone.
  pose proof (fileDiffVirtualFileContent_err r CapturedContent.init eq_refl)
    as [Hnil _].
  unfold fileDiffVirtualFileContent, virtualContentOnce in *.
  cbn [CapturedContent.onceDone CapturedContent.init] in *.
  destruct (FileDiffResolver.OldFile r) as [[old|e]|];
    try destruct (applyPatch _ _) as [content|] eqn:Hpatch;
    cbn in *;
    (split; [by rewrite virtualContentCalls_done|]);
    (split; [reflexivity|]);
    repeat split; intros; try congruence.
  all: match goal with Hx : Some (Ok _) = Some (Ok _) |- _ => injection Hx as <- end.
  all: by rewrite Hpatch.
Qed.

Lemma fileDiffVirtualFileContent_once_witness :
  fst (fileDiffVirtualFileContent
         (FileDiffResolver.mk
            (FileDiff.mk "/dev/null" "f"
               [Hunk.mk 0 0 1 2 (strings.JoinLines ["+x"; "+y"; ""]%string)])
            None)
         CapturedContent.init)
  = Some (strings.JoinLines ["x"; "y"]%string, None).
Proof.
  pose proof (fileDiffVirtualFileContent_once
                (FileDiffResolver.mk
                   (FileDiff.mk "/dev/null" "f"
                      [Hunk.mk 0 0 1 2 (strings.JoinLines ["+x"; "+y"; ""]%string)])
                   None) 0) as Hx.
  destruct (fileDiffVirtualFileContent _ CapturedContent.init) as [first v].
  destruct Hx as (_ & _ & _ & _ & Hnew).
  rewrite (Hnew eq_refl). vm_compute. reflexivity.
Defined.

(** ** More on the file-diff computation *)

(** What the loop keeps on any stream: the file diffs are those it had
    and a prefix of the records of the stream; it has made one call more
    than it has read records; a next page is reported only without error
    and with exactly [totalAmount] file diffs. *)
Lemma readFileDiffs_invariants (totalAmount : Z) (s : DiffStream) :
  forall (calls : nat) (acc fds : list FileDiff.t) (hn : bool) (e : option error)
         (dr : Reader.t),
    readFileDiffs totalAmount s calls acc = (fds, hn, e, dr) ->
    exists pre,
      fds = acc ++ pre
      /\ pre `prefix_of` recordsOf s
      /\ Reader.readCalls dr = (calls + length pre + 1)%nat
      /\ (hn = true -> e = None /\ pre <> [] /\ Z.of_nat (length fds) = totalAmount).
Proof.
  induction s as [|msg|fd rest IH]; intros calls acc fds hn e dr Hrun;
    cbn [readFileDiffs recordsOf] in *.
  - injection Hrun as <- <- <- <-. exists []. rewrite app_nil_r.
    repeat split; [apply prefix_nil|cbn; lia|done..].
  - injection Hrun as <- <- <- <-. exists []. rewrite app_nil_r.
    repeat split; [apply prefix_nil|cbn; lia|done..].
  - destruct (Z.of_nat (length (acc ++ [fd])) =? totalAmount) eqn:Hhit.
    + apply Z.eqb_eq in Hhit.
      exists [fd].
      unfold ReadFile in Hrun. cbn [Reader.unread Reader.readCalls] in Hrun.
      destruct rest as [|msg|fd' rest']; injection Hrun as <- <- <- <-;
        (repeat split; [by apply prefix_cons, prefix_nil|cbn; lia|done..]).
    + destruct (IH _ _ _ _ _ _ Hrun) as (pre & -> & Hpre & Hcalls & Hnext).
      exists (fd :: pre). rewrite <- app_assoc. cbn [app].
      repeat split.
      * by apply prefix_cons.
      * rewrite Hcalls. cbn [length]. lia.
      * by apply Hnext.
      * done.
      * destruct (Hnext H) as (_ & _ & Hlen). by rewrite <- app_assoc in Hlen.
Qed.

(** The loop on a stream that breaks behind the file diffs [l]: it stops
    before the break when the total amount is met within [l] and a record
    follows, and ends with the parse error otherwise. *)
Lemma readFileDiffs_broken_upto (totalAmount : Z) (msg : string) (l : list FileDiff.t) :
  forall (fileDiffs : list FileDiff.t) (calls k : nat),
    (1 <= k < length l)%nat ->
    totalAmount = Z.of_nat (length fileDiffs + k) ->
    readFileDiffs totalAmount (brokenAfter l msg) calls fileDiffs
    = (fileDiffs ++ take k l, true, None,
       Reader.mk (brokenAfter (drop (S k) l) msg) (calls + k + 1)).
Proof.
  induction l as [|fd l IH]; intros fileDiffs calls k Hk Htotal; cbn in Hk; [lia|].
  cbn [brokenAfter foldr readFileDiffs]. fold (brokenAfter l msg).
  rewrite length_app. cbn [length].
  destruct (Z.eqb_spec (Z.of_nat (length fileDiffs + 1)) totalAmount) as [Hhit|Hmiss].
  - assert (k = 1%nat) as -> by lia.
    destruct l as [|fd' l]; [cbn in Hk; lia|].
    cbn. repeat f_equal; lia.
  - destruct k as [|k]; [lia|]. destruct k as [|k]; [lia|].
    rewrite (IH (fileDiffs ++ [fd]) (S calls) (S k)).
    + cbn [take drop length]. rewrite <- app_assoc. cbn [app].
      replace (S calls + S k + 1)%nat with (calls + S (S k) + 1)%nat by lia.
      reflexivity.
    + lia.
    + rewrite length_app. cbn [length]. lia.
Qed.

Lemma readFileDiffs_broken_end (totalAmount : Z) (msg : string) (l : list FileDiff.t) :
  forall (fileDiffs : list FileDiff.t) (calls : nat),
    totalAmount <= Z.of_nat (length fileDiffs)
    \/ Z.of_nat (length fileDiffs + length l) <= totalAmount ->
    readFileDiffs totalAmount (brokenAfter l msg) calls fileDiffs
    = (fileDiffs ++ l, false, Some (ErrDiffParse msg),
       Reader.mk (Malformed msg) (calls + length l + 1)).
Proof.
  induction l as [|fd l IH]; intros fileDiffs calls Hmiss.
  - cbn. rewrite app_nil_r. repeat f_equal; lia.
  - cbn [brokenAfter foldr readFileDiffs]. fold (brokenAfter l msg).
    rewrite length_app. cbn [length] in *.
    destruct (Z.eqb_spec (Z.of_nat (length fileDiffs + 1)) totalAmount) as [Hhit|Hne].
    + destruct l as [|fd' l]; [|cbn [length] in Hmiss; lia].
      cbn. repeat f_equal; lia.
    + rewrite IH.
      * rewrite <- app_assoc. cbn [app].
        replace (S calls + length l + 1)%nat with (calls + S (length l) + 1)%nat by lia.
        reflexivity.
      * rewrite length_app. cbn [length]. lia.
Qed.

Section MoreFileDiffConnectionFacts.
Context `{DiffParser}.

Import FileDiffsConnectionArgs.

(** The first run of the computation, with the total amount in terms of
    the offset and the limit of the request. *)
Lemma computeOnce_total (patch : Patch.t) (args : FileDiffsConnectionArgs.t) (c : Z) :
  effectiveOffset args = Some c ->
  0 <= c <= Int32.max
  /\ computeOnce patch args Captured.init
     = let '(fileDiffs, hasNextPage, err, dr) :=
         readFileDiffs (Int32.wrap (c + limitOf args))
           (NewMultiFileDiffReader (Patch.Diff patch)) 0 [] in
       (Captured.mk false fileDiffs c hasNextPage err 1, Some dr).
Proof.
  intros Hoff. destruct (computeOnce_offset patch args c Hoff) as [Hc Hrun].
  split; [exact Hc|]. rewrite Hrun. unfold limitOf.
  destruct (First args) as [first|]; [reflexivity|].
  rewrite Z.add_0_r, wrap_in_range; [reflexivity|].
  unfold Int32.InRange, Int32.min. lia.
Qed.

(** X7.  A cursor that [strconv.ParseInt] rejects ends the computation
    before the diff is read: the request gets no file diff, offset zero,
    no next page and no error, and so does every later request to the
    same closure, whatever its cursor. *)
Theorem rejected_cursor_reads_nothing (patch : Patch.t) (first : option Z)
    (cursor : string) (later : list FileDiffsConnectionArgs.t) :
  snd (strconv.ParseInt cursor 0 32) <> None ->
  let args := FileDiffsConnectionArgs.mk first (Some cursor) in
  snd (computeOnce patch args Captured.init) = None
  /\ fst (fileDiffConnectionCompute patch args Captured.init) = ([], 0, false, None)
  /\ fst (callAll patch later (snd (fileDiffConnectionCompute patch args Captured.init)))
     = repeat ([], 0, false, None) (length later).
Proof.
  intros Hrejected args.
  assert (Hrun : computeOnce patch args Captured.init
                 = (Captured.mk false [] 0 false None 1, None)).
  { unfold computeOnce, args. cbn [After].
    destruct (strconv.ParseInt cursor 0 32) as [z [e|]]; [reflexivity|].
    by cbn in Hrejected. }
  split; [by rewrite Hrun|].
  unfold fileDiffConnectionCompute at 1 2, onceDo.
  cbn [Captured.onceDone Captured.init]. rewrite Hrun. cbn [fst snd].
  split; [reflexivity|].
  by rewrite callAll_done.
Qed.

(** X8.  Whatever the diff text and the request, the file diffs of the
    computation are a prefix of the file diffs of the text, read with
    exactly one [ReadFile] call more than there are file diffs; a next
    page is reported only without error and with as many file diffs,
    at least one, as the offset plus the limit. *)
Theorem computeOnce_invariants (patch : Patch.t) (args : FileDiffsConnectionArgs.t)
    (v : Captured.t) (dr : Reader.t) :
  computeOnce patch args Captured.init = (v, Some dr) ->
  Captured.fileDiffs v `prefix_of` recordsOf (NewMultiFileDiffReader (Patch.Diff patch))
  /\ Reader.readCalls dr = S (length (Captured.fileDiffs v))
  /\ (Captured.hasNextPage v = true ->
        Captured.err v = None
        /\ Captured.fileDiffs v <> []
        /\ Z.of_nat (length (Captured.fileDiffs v))
           = Int32.wrap (Captured.afterIdx v + limitOf args)).
Proof.
  intros Hrun.
  destruct (effectiveOffset args) as [c|] eqn:Hoff.
  - destruct (computeOnce_total patch args c Hoff) as [_ Hshape].
    rewrite Hshape in Hrun.
    destruct (readFileDiffs _ _ 0 []) as [[[fds hn] e] dr'] eqn:Hloop.
    injection Hrun as <- <-.
    destruct (readFileDiffs_invariants _ _ _ _ _ _ _ _ Hloop)
      as (pre & -> & Hpre & Hcalls & Hnext).
    cbn. repeat split; try done.
    + rewrite Hcalls. lia.
    + by apply Hnext.
    + by apply Hnext.
    + by apply Hnext.
  - exfalso. unfold effectiveOffset in Hoff. unfold computeOnce in Hrun.
    destruct (After args) as [after|]; [|discriminate].
    destruct (strconv.ParseInt after 0 32) as [z [e|]]; discriminate.
Qed.

(** X9.  The diff is parsed only as far as the page needs it.  When the
    text breaks behind the file diffs [l], a request whose offset plus
    limit is met before the last of them is served without error, with a
    next page; a request that needs the last of them or more, or has no
    limit, gets all of [l] together with the parse error. *)
Theorem parse_error_behind_the_page (patch : Patch.t) (args : FileDiffsConnectionArgs.t)
    (l : list FileDiff.t) (msg : string) (c : Z) :
  NewMultiFileDiffReader (Patch.Diff patch) = brokenAfter l msg ->
  effectiveOffset args = Some c ->
  (0 < c + limitOf args < Z.of_nat (length l) ->
   c + limitOf args <= Int32.max ->
     fst (fileDiffConnectionCompute patch args Captured.init)
     = (take (Z.to_nat (c + limitOf args)) l, c, true, None))
  /\ (Int32.min <= c + limitOf args <= 0
      \/ Z.of_nat (length l) <= c + limitOf args <= Int32.max ->
     fst (fileDiffConnectionCompute patch args Captured.init)
     = (l, c, false, Some (ErrDiffParse msg))).
Proof.
  intros Hstream Hoff.
  destruct (computeOnce_total patch args c Hoff) as [Hc Hrun].
  rewrite Hstream in Hrun.
  unfold fileDiffConnectionCompute, onceDo. cbn [Captured.onceDone Captured.init].
  unfold Int32.min, Int32.max in *.
  split; [intros Htotal Hfits|intros Htotal].
  - rewrite wrap_small in Hrun by lia.
    rewrite (readFileDiffs_broken_upto _ msg l [] 0 (Z.to_nat (c + limitOf args)))
      in Hrun by (cbn [length]; lia).
    rewrite Hrun. reflexivity.
  - rewrite wrap_small in Hrun by lia.
    rewrite (readFileDiffs_broken_end _ msg l [] 0) in Hrun by (cbn [length]; lia).
    rewrite Hrun. reflexivity.
Qed.

(** X10.  When the offset plus the limit of a request is more than an
    [int32] holds, the total amount wraps to a negative number, which the
    loop never meets: the computation reads the whole stream and reports
    no next page. *)
Theorem overflowing_total_reads_everything (patch : Patch.t)
    (args : FileDiffsConnectionArgs.t) (l : list FileDiff.t) (c : Z) :
  NewMultiFileDiffReader (Patch.Diff patch) = streamOf l ->
  effectiveOffset args = Some c ->
  limitOf args <= Int32.max ->
  Int32.max < c + limitOf args ->
  readsEverything patch args l.
Proof.
  intros Hstream Hoff Hlimit Hover.
  destruct (computeOnce_total patch args c Hoff) as [Hc Hrun].
  rewrite Hstream in Hrun. unfold Int32.max in *.
  assert (Hwrap : Int32.wrap (c + limitOf args) < 0).
  { unfold Int32.wrap.
    replace (c + limitOf args + 2147483648)
      with ((c + limitOf args - 2147483648) + 1 * 4294967296) by lia.
    rewrite Z.mod_add by lia. rewrite Z.mod_small by lia. lia. }
  rewrite (readFileDiffs_all _ l [] 0) in Hrun by (cbn [length]; lia).
  unfold readsEverything. eexists _, _. split; [exact Hrun|].
  cbn. repeat split. lia.
Qed.

End MoreFileDiffConnectionFacts.

Lemma rejected_cursor_reads_nothing_witness :
  fst (@callAll exampleParser twoFilePatch
         [FileDiffsConnectionArgs.mk (Some 1) None]
         (snd (@fileDiffConnectionCompute exampleParser twoFilePatch
                 (FileDiffsConnectionArgs.mk (Some 1) (Some "1e3"%string))
                 Captured.init)))
  = [([], 0, false, None)].
Proof.
  apply (@rejected_cursor_reads_nothing exampleParser twoFilePatch (Some 1) "1e3"
           [FileDiffsConnectionArgs.mk (Some 1) None]).
  vm_compute. discriminate.
Defined.

Lemma computeOnce_invariants_witness :
  let v := Captured.mk false [FileDiff.mk "a" "a" []] 0 true None 1 in
  let dr := Reader.mk AtEOF 2 in
  Captured.fileDiffs v
    `prefix_of` recordsOf (@NewMultiFileDiffReader exampleParser (Patch.Diff twoFilePatch))
  /\ Reader.readCalls dr = S (length (Captured.fileDiffs v))
  /\ (Captured.hasNextPage v = true ->
        Captured.err v = None
        /\ Captured.fileDiffs v <> []
        /\ Z.of_nat (length (Captured.fileDiffs v))
           = Int32.wrap (Captured.afterIdx v
                         + limitOf (FileDiffsConnectionArgs.mk (Some 1) None))).
Proof.
  apply (@computeOnce_invariants exampleParser twoFilePatch
           (FileDiffsConnectionArgs.mk (Some 1) None)).
  vm_compute. reflexivity.
Defined.



Lemma parse_error_behind_the_page_witness :
  fst (@fileDiffConnectionCompute brokenParser twoFilePatch
         (FileDiffsConnectionArgs.mk (Some 1) None) Captured.init)
  = ([FileDiff.mk "a" "a" []], 0, true, None)
  /\ fst (@fileDiffConnectionCompute brokenParser twoFilePatch
            (FileDiffsConnectionArgs.mk (Some 2) None) Captured.init)
     = (twoFiles, 0, false, Some (ErrDiffParse "unexpected end of hunk")).
Proof.
  pose proof (@parse_error_behind_the_page brokenParser twoFilePatch
                (FileDiffsConnectionArgs.mk (Some 1) None) twoFiles
                "unexpected end of hunk" 0 eq_refl eq_refl) as [Hpage _].
  pose proof (@parse_error_behind_the_page brokenParser twoFilePatch
                (FileDiffsConnectionArgs.mk (Some 2) None) twoFiles
                "unexpected end of hunk" 0 eq_refl eq_refl) as [_ Hbreak].
  split.
  - apply Hpage; cbn; unfold Int32.max; lia.
  - apply Hbreak. right. cbn. unfold Int32.max. lia.
Defined.

Lemma overflowing_total_reads_everything_witness :
  @readsEverything exampleParser twoFilePatch
    (FileDiffsConnectionArgs.mk (Some 2147483647) (Some "1"%string)) twoFiles.
Proof.
  apply (@overflowing_total_reads_everything exampleParser twoFilePatch
           (FileDiffsConnectionArgs.mk (Some 2147483647) (Some "1"%string))
           twoFiles 1 eq_refl eq_refl).
  - cbn. unfold Int32.max. lia.
  - cbn. unfold Int32.max. lia.
Defined.

(** ** More on the diff stat of a patch set *)

(** The loop skips patches of repositories outside of the set. *)
Lemma sumDiffStats_none_visible (ids : gset Z) (patches : list Patch.t)
    (total : DiffStat.t) :
  Forall (fun p => Patch.RepoID p ∉ ids) patches ->
  sumDiffStats ids patches total = Ok total.
Proof.
  induction 1 as [|p rest Hp _ IH]; [reflexivity|].
  cbn [sumDiffStats]. by rewrite decide_False.
Qed.

Lemma sumOf_Permutation (counter : Stat.t -> Z) (s1 s2 : list Stat.t) :
  s1 ≡ₚ s2 -> sumOf counter s1 = sumOf counter s2.
Proof.
  induction 1 as [|x l1 l2 _ IH|x y l|l1 l2 l3 _ IH1 _ IH2]; cbn.
  - reflexivity.
  - unfold sumOf in *. cbn. by rewrite IH.
  - unfold sumOf. cbn. lia.
  - by rewrite IH1.
Qed.

Section MorePatchSetDiffStatFacts.
Context `{Backend}.

(** X11.  When none of the listed patches is of a repository that the
    repository database returns for the viewer, the diff stat is zero and
    there is no error, also when the patches have no diff stat. *)
Theorem patchSetDiffStat_nothing_visible
    (opts : ListPatchesOpts.t) (patches : list Patch.t) (accessibleRepos : list Repo.t) :
  store_ListPatches (withNoDiff opts) = Ok patches ->
  db_Repos_GetByIDs (map Patch.RepoID patches) = Ok accessibleRepos ->
  Forall (fun p => ~ visibleTo accessibleRepos p) patches ->
  patchSetDiffStat opts = Ok DiffStat.zero.
Proof.
  intros Hlist Hrepos Hnone.
  unfold patchSetDiffStat. fold (withNoDiff opts). rewrite Hlist, Hrepos.
  apply sumDiffStats_none_visible.
  eapply Forall_impl; [exact Hnone|].
  intros p Hp Hin. apply Hp. by apply elem_of_collectRepoIDs.
Qed.

End MorePatchSetDiffStatFacts.

Lemma patchSetDiffStat_nothing_visible_witness :
  @patchSetDiffStat blindBackend (ListPatchesOpts.mk 1 0 false) = Ok DiffStat.zero.
Proof.
  apply (@patchSetDiffStat_nothing_visible blindBackend
           (ListPatchesOpts.mk 1 0 false) examplePatches [] eq_refl eq_refl).
  repeat constructor; unfold visibleTo; cbn; apply not_elem_of_nil.
Defined.

(** X12.  The diff stat does not depend on the order in which the store
    lists the patches, nor on the order or the repetitions in which the
    repository database returns the repositories, as long as the
    accessible patches have their diff stats. *)
Theorem patchSetDiffStat_order_independent (b1 b2 : Backend)
    (opts : ListPatchesOpts.t) (patches1 patches2 : list Patch.t)
    (repos1 repos2 : list Repo.t) :
  @store_ListPatches b1 (withNoDiff opts) = Ok patches1 ->
  @store_ListPatches b2 (withNoDiff opts) = Ok patches2 ->
  patches1 ≡ₚ patches2 ->
  @db_Repos_GetByIDs b1 (map Patch.RepoID patches1) = Ok repos1 ->
  @db_Repos_GetByIDs b2 (map Patch.RepoID patches2) = Ok repos2 ->
  (forall id, id ∈ map Repo.ID repos1 <-> id ∈ map Repo.ID repos2) ->
  Forall hasDiffStat (filter (visibleTo repos1) patches1) ->
  @patchSetDiffStat b1 opts = @patchSetDiffStat b2 opts.
Proof.
  intros Hlist1 Hlist2 Hperm Hrepos1 Hrepos2 Hsame Hstats.
  assert (Hfilter : forall (repos : list Repo.t) (l : list Patch.t),
            filter (fun p => Patch.RepoID p ∈ collectRepoIDs repos) l
            = filter (visibleTo repos) l).
  { intros repos l. apply list_filter_iff. intros p. apply elem_of_collectRepoIDs. }
  assert (Hvisible : filter (visibleTo repos1) patches1
                     ≡ₚ filter (visibleTo repos2) patches2).
  { rewrite (list_filter_iff (visibleTo repos1) (visibleTo repos2))
      by (intros p; apply Hsame).
    by rewrite Hperm. }
  assert (Hstats2 : Forall hasDiffStat (filter (visibleTo repos2) patches2))
    by (by rewrite <- Hvisible).
  unfold patchSetDiffStat. fold (withNoDiff opts).
  rewrite Hlist1, Hlist2, Hrepos1, Hrepos2.
  rewrite !sumDiffStats_complete by (by rewrite Hfilter).
  rewrite !Hfilter.
  change DiffStat.zero with (DiffStat.mk 0 0 0).
  change 0 with (Int32.wrap 0) at 1 2 3 4 5 6.
  rewrite !foldl_AddStat.
  assert (Hs : omap Patch.DiffStat (filter (visibleTo repos1) patches1)
               ≡ₚ omap Patch.DiffStat (filter (visibleTo repos2) patches2))
    by (by rewrite Hvisible).
  by rewrite !(sumOf_Permutation _ _ _ Hs).
Qed.

Lemma patchSetDiffStat_order_independent_witness :
  @patchSetDiffStat exampleBackend (ListPatchesOpts.mk 1 0 false)
  = @patchSetDiffStat reorderedBackend (ListPatchesOpts.mk 1 0 false).
Proof.
  apply (patchSetDiffStat_order_independent exampleBackend reorderedBackend
           (ListPatchesOpts.mk 1 0 false) examplePatches (rev examplePatches)
           exampleRepos (rev exampleRepos) eq_refl eq_refl).
  - apply Permutation_rev.
  - reflexivity.
  - reflexivity.
  - intros id. cbn. rewrite !elem_of_cons, !elem_of_nil. tauto.
  - vm_compute. repeat constructor; discriminate.
Defined.

(** ** More on the listing filter *)

Section MoreListChangesetsFacts.
Context `{ChangesetEnums}.

Import ListChangesetsArgs.

(** X13.  [listChangesetOptsFromArgs] returns an error exactly for
    arguments with an enum value that its type does not accept.
    Otherwise the options carry the limit and the three filters of the
    arguments as they are, and they are safe exactly when there is no
    filter on the review state and none on the check state. *)
Theorem listChangesetOptsFromArgs_opts (args : ListChangesetsArgs.t) :
  let '(opts, optsSafe, err) := listChangesetOptsFromArgs (Some args) in
  (err <> None <-> hasInvalidEnum args)
  /\ (err = None ->
      opts = optsOfArgs args
      /\ (optsSafe = true <-> ReviewState args = None /\ CheckState args = None)).
Proof.
  destruct args as [first state review check].
  unfold listChangesetOptsFromArgs, hasInvalidEnum, optsOfArgs.
  cbn [First State ReviewState CheckState].
  destruct state as [st|]; [destruct (ChangesetState_Valid st) eqn:Est|]; cbn;
    (destruct review as [rv|]; [destruct (ChangesetReviewState_Valid rv) eqn:Erv|]; cbn);
    (destruct check as [ck|]; [destruct (ChangesetCheckState_Valid ck) eqn:Eck|]; cbn);
    destruct first as [f|]; cbn;
    (split; [split|]);
    try (intros _; eauto 6; fail);
    try (intros; congruence);
    try (intros [(s & [= <-] & Hs) | [(s & [= <-] & Hs) | (s & [= <-] & Hs)]];
         congruence);
    try (intros [(s & Hs & _) | [(s & Hs & _) | (s & Hs & _)]]; congruence);
    try (intros _; split; [reflexivity|]; split;
         [intros; try congruence; tauto | intros [? ?]; congruence]).
Qed.

End MoreListChangesetsFacts.

Lemma listChangesetOptsFromArgs_opts_witness :
  fst (fst (@listChangesetOptsFromArgs exampleEnums
              (Some (ListChangesetsArgs.mk (Some 10) (Some "OPEN"%string) None None))))
  = ListChangesetsOpts.mk 10 (Some "OPEN"%string) None None.
Proof.
  pose proof (@listChangesetOptsFromArgs_opts exampleEnums
                (ListChangesetsArgs.mk (Some 10) (Some "OPEN"%string) None None)) as Hx.
  destruct (@listChangesetOptsFromArgs exampleEnums _) as [[opts safe] err] eqn:Hrun.
  destruct Hx as [_ Hopts].
  assert (err = None) as Herr by (vm_compute in Hrun; congruence).
  destruct (Hopts Herr) as [-> _]. reflexivity.
Defined.

(** ** More on fetching changesets and campaigns *)

Section MoreResolverFacts.
Context `{Backend}.

(** X14.  When [ChangesetByID] returns a resolver, it returns no error,
    the viewer has read access, and the resolver is around the changeset
    that the store has for the id, which is not zero: the hidden resolver
    only when the repository database reports the repository of the
    changeset as not found, the full resolver only with the repository
    that the database returned for the viewer. *)
Theorem ChangesetByID_resolver (id : string) (r : ChangesetResolver)
    (err : option error) :
  ChangesetByID id = (Some r, err) ->
  err = None
  /\ allowReadAccess = None
  /\ exists changesetID changeset,
       unmarshalChangesetID id = (changesetID, None)
       /\ changesetID <> 0
       /\ store_GetChangeset changesetID = Ok changeset
       /\ ((r = hiddenChangesetResolver changeset
            /\ exists e, db_Repos_Get (Changeset.RepoID changeset) = Err e
                         /\ IsNotFound e = true)
           \/ (exists repo,
                 r = changesetResolver changeset repo
                 /\ db_Repos_Get (Changeset.RepoID changeset) = Ok repo)).
Proof.
  unfold ChangesetByID. intros Hrun.
  destruct allowReadAccess as [e|]; [discriminate|].
  destruct (unmarshalChangesetID id) as [changesetID [e|]]; [discriminate|].
  destruct (Z.eqb_spec changesetID 0) as [Hzero|Hnz]; [discriminate|].
  destruct (store_GetChangeset changesetID) as [changeset|e] eqn:Hget;
    [|destruct e; discriminate].
  destruct (db_Repos_Get (Changeset.RepoID changeset)) as [repo|e] eqn:Hrepo.
  - injection Hrun as <- <-. repeat split.
    exists changesetID, changeset. repeat split; try done. right. eauto.
  - destruct (IsNotFound e) eqn:Hnf; [|discriminate].
    injection Hrun as <- <-. repeat split.
    exists changesetID, changeset. repeat split; try done. left. eauto.
Qed.

End MoreResolverFacts.

Lemma ChangesetByID_resolver_witness :
  exists changesetID changeset,
    @unmarshalChangesetID exampleBackend "8" = (changesetID, None)
    /\ changesetID <> 0
    /\ @store_GetChangeset exampleBackend changesetID = Ok changeset.
Proof.
  destruct (@ChangesetByID_resolver exampleBackend "8"
              (changesetResolver (exampleChangeset 8 1) (Repo.mk 1 "github.com/a/one"))
              None eq_refl)
    as (_ & _ & changesetID & changeset & Hid & Hnz & Hget & _).
  exists changesetID, changeset. auto.
Defined.

Section CampaignFacts.
Context `{Backend} `{CampaignBackend} `{Formatter}.

(** X15.  [CampaignByID] returns a campaign exactly when the viewer has
    read access, the id unmarshals to a number other than zero and the
    store has the campaign of that number, and then without error: no
    repository is looked up and nothing of the campaign is hidden. *)
Theorem CampaignByID_found (id : string) (campaign : Campaign.t) (err : option error) :
  CampaignByID id = (Some campaign, err)
  <-> err = None
      /\ allowReadAccess = None
      /\ exists campaignID,
           campaigns_UnmarshalCampaignID id = (campaignID, None)
           /\ campaignID <> 0
           /\ store_GetCampaign campaignID = Ok campaign.
Proof.
  unfold CampaignByID. split.
  - intros Hrun.
    destruct allowReadAccess as [e|]; [discriminate|].
    destruct (campaigns_UnmarshalCampaignID id) as [campaignID [e|]]; [discriminate|].
    destruct (Z.eqb_spec campaignID 0) as [Hzero|Hnz]; [discriminate|].
    destruct (store_GetCampaign campaignID) as [c|e] eqn:Hget;
      [|destruct e; discriminate].
    injection Hrun as <- <-. repeat split. eauto.
  - intros (-> & Hallow & campaignID & Hid & Hnz & Hget).
    rewrite Hallow, Hid, Hget.
    by replace (campaignID =? 0) with false by lia.
Qed.

(** X16.  [DeleteCampaign] returns a response exactly when the id
    unmarshals to a number other than zero: the service is then called
    once, without closing changesets, and its error, if any, is returned
    together with the response.  For an id that does not unmarshal or is
    zero the service is not called. *)
Theorem DeleteCampaign_response (args : DeleteCampaignArgs.t) :
  let '(response, err, events) := DeleteCampaign args in
  let '(campaignID, idErr) :=
    campaigns_UnmarshalCampaignID (DeleteCampaignArgs.Campaign args) in
  (response <> None <-> idErr = None /\ campaignID <> 0)
  /\ (response <> None ->
      err = svc_DeleteCampaign campaignID false
      /\ filter (fun ev => isServiceCall ev = true) events
         = [ServiceDeleteCampaign campaignID false])
  /\ (response = None ->
      err <> None /\ filter (fun ev => isServiceCall ev = true) events = []).
Proof.
  unfold DeleteCampaign, deleteCampaignBody.
  destruct (campaigns_UnmarshalCampaignID (DeleteCampaignArgs.Campaign args))
    as [campaignID [e|]];
    [|destruct (Z.eqb_spec campaignID 0) as [->|Hnz]];
    repeat split; intros;
    repeat match goal with
      | Hx : _ /\ _ |- _ => destruct Hx
      end;
    congruence.
Qed.

(** X17.  [CloseCampaign] returns a campaign exactly when it returns no
    error.  The cause of the error that it returns is the error of the
    unmarshalling, [ErrIDIsZero] or the error of the service; the first
    and the last are wrapped, [ErrIDIsZero] is not.  The service is called
    at most once, with the [closeChangesets] of the arguments, and not at
    all for an id that does not unmarshal or is zero. *)
Theorem CloseCampaign_errors (args : CloseCampaignArgs.t) :
  let '(response, err, events) := CloseCampaign args in
  let '(campaignID, idErr) :=
    campaigns_UnmarshalCampaignID (CloseCampaignArgs.Campaign args) in
  (response <> None <-> err = None)
  /\ (forall e, idErr = Some e ->
        err = Some (Wrap (AsIs e) "unmarshaling campaign id")
        /\ filter (fun ev => isServiceCall ev = true) events = [])
  /\ (idErr = None -> campaignID = 0 ->
        err = Some (AsIs ErrIDIsZero)
        /\ filter (fun ev => isServiceCall ev = true) events = [])
  /\ (idErr = None -> campaignID <> 0 ->
        filter (fun ev => isServiceCall ev = true) events
        = [ServiceCloseCampaign campaignID (CloseCampaignArgs.CloseChangesets args)]
        /\ match svc_CloseCampaign campaignID (CloseCampaignArgs.CloseChangesets args) with
           | Ok campaign => response = Some campaign /\ err = None
           | Err e => response = None /\ err = Some (Wrap (AsIs e) "closing campaign")
           end)
  /\ (forall w, err = Some w ->
        In (CampaignTraceSetError (Some w)) events
        /\ (idErr = Some (Cause w) \/ Cause w = ErrIDIsZero
            \/ svc_CloseCampaign campaignID (CloseCampaignArgs.CloseChangesets args)
               = Err (Cause w))).
Proof.
  unfold CloseCampaign, closeCampaignBody.
  destruct (campaigns_UnmarshalCampaignID (CloseCampaignArgs.Campaign args))
    as [campaignID [e|]];
    [|destruct (Z.eqb_spec campaignID 0) as [->|Hnz];
      [|destruct (svc_CloseCampaign campaignID (CloseCampaignArgs.CloseChangesets args))
          as [campaign|e] eqn:Hsvc]];
    repeat split; intros;
    repeat match goal with
      | Hx : Some _ = Some _ |- _ => injection Hx as ?; subst
      end;
    try congruence; cbn; auto 10.
Qed.

(** X18.  [Campaigns], for a viewer with read access: a state other than
    OPEN and CLOSED is an error.  Otherwise, when the check of the current
    user fails with an error other than [ErrMustBeSiteAdmin], the result
    is neither a resolver nor an error; a site admin gets the campaigns of
    all authors, whatever [ViewerCanAdminister]; any other viewer gets the
    campaigns of which they are the author exactly when
    [ViewerCanAdminister] is true, and else those of all authors. *)
Theorem Campaigns_outcomes (args : ListCampaignArgs.t) :
  allowReadAccess = None ->
  let state := ListCampaignArgs.State args in
  let limit := match ListCampaignArgs.First args with Some f => f | None => 0 end in
  (state <> None /\ state <> Some "OPEN"%string /\ state <> Some "CLOSED"%string ->
   exists msg, Campaigns args = (None, Some (ErrNew msg)))
  /\ (state = None \/ state = Some "OPEN"%string \/ state = Some "CLOSED"%string ->
      let st :=
        match state with
        | None => CampaignStateAny
        | Some s => if String.eqb s "OPEN" then CampaignStateOpen else CampaignStateClosed
        end in
      (forall e, backend_CheckCurrentUserIsSiteAdmin = Some e ->
                 e <> backend_ErrMustBeSiteAdmin ->
                 Campaigns args = (None, None))
      /\ (backend_CheckCurrentUserIsSiteAdmin = None ->
          Campaigns args = (Some (ListCampaignsOpts.mk st limit 0), None))
      /\ (backend_CheckCurrentUserIsSiteAdmin = Some backend_ErrMustBeSiteAdmin ->
          Campaigns args
          = (Some (ListCampaignsOpts.mk st limit
                     (match ListCampaignArgs.ViewerCanAdminister args with
                      | Some true => actor_UID
                      | _ => 0
                      end)), None))).
Proof.
  intros Hallow state limit. unfold Campaigns. rewrite Hallow.
  subst state limit. destruct args as [first state viewer].
  cbn [ListCampaignArgs.State ListCampaignArgs.First ListCampaignArgs.ViewerCanAdminister].
  split.
  - intros (Hsome & Hopen & Hclosed).
    destruct state as [s|]; [|done]. unfold parseCampaignState.
    destruct (String.eqb_spec s "OPEN") as [->|_]; [done|].
    destruct (String.eqb_spec s "CLOSED") as [->|_]; [done|].
    eauto.
  - intros Hstate.
    assert (Hparse : parseCampaignState state
                     = (match state with
                        | None => CampaignStateAny
                        | Some s => if String.eqb s "OPEN" then CampaignStateOpen
                                    else CampaignStateClosed
                        end, None))
      by (destruct Hstate as [-> | [-> | ->]]; reflexivity).
    rewrite Hparse. cbv zeta.
    generalize (match state with
                | None => CampaignStateAny
                | Some s => if String.eqb s "OPEN" then CampaignStateOpen
                            else CampaignStateClosed
                end). intros st.
    unfold ListCampaignsOpts.zero.
    cbn [ListCampaignsOpts.State ListCampaignsOpts.Limit ListCampaignsOpts.OnlyForAuthor].
    repeat split.
    + intros e Hauth Hne. rewrite Hauth.
      rewrite !bool_decide_true by congruence. reflexivity.
    + intros Hauth. rewrite Hauth.
      rewrite (bool_decide_false (None <> None)) by congruence.
      rewrite bool_decide_true by congruence. cbn.
      by destruct first.
    + intros Hauth. rewrite Hauth.
      rewrite bool_decide_true by congruence.
      rewrite bool_decide_false by (intros Hx; by apply Hx).
      cbn. destruct first, viewer as [[|]|]; reflexivity.
Qed.

End CampaignFacts.

Lemma CampaignByID_found_witness :
  @CampaignByID exampleBackend exampleCampaignBackend "5" = (Some exampleCampaign, None).
Proof.
  apply (@CampaignByID_found exampleBackend exampleCampaignBackend "5"
           exampleCampaign None).
  split; [reflexivity|]. split; [reflexivity|].
  exists 5. repeat split. lia.
Defined.

Lemma DeleteCampaign_response_witness :
  fst (@DeleteCampaign exampleCampaignBackend (DeleteCampaignArgs.mk "6"))
  = (Some tt, Some (ErrCollab true "campaign not found")).
Proof.
  pose proof (@DeleteCampaign_response exampleCampaignBackend
                (DeleteCampaignArgs.mk "6")) as Hx.
  destruct (@DeleteCampaign exampleCampaignBackend (DeleteCampaignArgs.mk "6"))
    as [[response err] events] eqn:Hrun.
  change (@campaigns_UnmarshalCampaignID exampleCampaignBackend
            (DeleteCampaignArgs.Campaign (DeleteCampaignArgs.mk "6")))
    with (6, @None error) in Hx.
  cbv beta iota in Hx.
  destruct Hx as (Hresp & Herr & _).
  assert (Hsome : response <> None) by (apply Hresp; split; [reflexivity|lia]).
  destruct (Herr Hsome) as [-> _].
  destruct response as [[]|]; [reflexivity|done].
Defined.

Lemma CloseCampaign_errors_witness :
  snd (fst (@CloseCampaign exampleCampaignBackend (CloseCampaignArgs.mk "x" true)))
  = Some (Wrap (AsIs (ErrNum "ParseInt" "x" ErrSyntax)) "unmarshaling campaign id").
Proof.
  pose proof (@CloseCampaign_errors exampleCampaignBackend
                (CloseCampaignArgs.mk "x" true)) as Hx.
  destruct (@CloseCampaign exampleCampaignBackend (CloseCampaignArgs.mk "x" true))
    as [[response err] events] eqn:Hrun.
  change (@campaigns_UnmarshalCampaignID exampleCampaignBackend
            (CloseCampaignArgs.Campaign (CloseCampaignArgs.mk "x" true)))
    with (0, Some (ErrNum "ParseInt" "x" ErrSyntax)) in Hx.
  cbv beta iota in Hx.
  destruct Hx as (_ & Hid & _).
  destruct (Hid _ eq_refl) as [-> _]. reflexivity.
Defined.

Lemma Campaigns_outcomes_witness :
  @Campaigns anonymousBackend exampleCampaignBackend exampleFormatter
    (ListCampaignArgs.mk (Some 10) (Some "OPEN"%string) None)
  = (None, None).
Proof.
  pose proof (@Campaigns_outcomes anonymousBackend exampleCampaignBackend
                exampleFormatter (ListCampaignArgs.mk (Some 10) (Some "OPEN"%string) None) eq_refl)
    as [_ Hok].
  destruct (Hok (or_intror (or_introl eq_refl))) as (Hswallow & _).
  apply (Hswallow (ErrNew "not authenticated") eq_refl). discriminate.
Defined.

(** ** The registrations of the extension host *)

Section RegistrationFacts.
Context {Q P : Type} `{EqDecision Q} `{EqDecision P}.

Import ExtHost.

(** X19.  Registering query transformers one after the other puts them
    behind the registered ones, in the order of the registrations, and
    emits the array after each registration; the hover providers and
    their subject are not touched. *)
Theorem registerQueryTransformers_appends (transformers : list Q) (w : World Q P) :
  let w' := registerQueryTransformers transformers w in
  queryTransformers w' = queryTransformers w ++ transformers
  /\ queryTransformersChanges w'
     = queryTransformersChanges w
       ++ map (fun k => queryTransformers w ++ take k transformers)
              (seq 1 (length transformers))
  /\ hoverProviders w' = hoverProviders w
  /\ hoverProvidersChanges w' = hoverProvidersChanges w.
Proof.
  revert w. induction transformers as [|t rest IH]; intros w; cbn zeta.
  - cbn. by rewrite !app_nil_r.
  - cbn [registerQueryTransformers].
    set (w1 := fst (registerQueryTransformer t w)).
    destruct (IH w1) as (Hq & Hc & Hh & Hhc).
    rewrite Hq, Hc, Hh, Hhc. subst w1. cbn.
    repeat split.
    + by rewrite <- app_assoc.
    + rewrite <- app_assoc. cbn [app]. do 2 f_equal.
      rewrite <- (seq_shift (length rest) 1), map_map.
      apply map_ext. intros k. by rewrite <- app_assoc.
Qed.

(** X20.  The [unsubscribe] of a registration emits the array of that
    moment without the element, but stores the array as it was right
    after the registration: whenever it is called, the element is still
    registered afterwards, and what was registered or unregistered in
    between is undone in the state.  The same holds for hover providers,
    which are registered by the same function. *)
Theorem unsubscribe_stores_the_registration (transformer : Q) (entry : P)
    (w0 later : World Q P) :
  (let '(_, unsubscribe) := registerQueryTransformer transformer w0 in
   let w' := unsubscribe later in
   queryTransformers w' = queryTransformers w0 ++ [transformer]
   /\ transformer ∈ queryTransformers w'
   /\ queryTransformersChanges w'
      = queryTransformersChanges later
        ++ [filter (fun t => t <> transformer) (queryTransformers later)]
   /\ hoverProviders w' = hoverProviders later)
  /\ (let '(_, unsubscribe) := registerHoverProvider entry w0 in
      let w' := unsubscribe later in
      hoverProviders w' = hoverProviders w0 ++ [entry]
      /\ entry ∈ hoverProviders w'
      /\ hoverProvidersChanges w'
         = hoverProvidersChanges later
           ++ [filter (fun t => t <> entry) (hoverProviders later)]
      /\ queryTransformers w' = queryTransformers later).
Proof.
  split; cbn; repeat split; apply elem_of_app; right; by apply elem_of_cons; left.
Qed.

End RegistrationFacts.

Lemma registerQueryTransformers_appends_witness :
  ExtHost.queryTransformers
    (ExtHost.registerQueryTransformers [2%nat; 3%nat]
       (ExtHost.mkWorld [1%nat] ([] : list nat) [] []))
  = [1%nat; 2%nat; 3%nat].
Proof.
  apply (registerQueryTransformers_appends (P := nat) [2%nat; 3%nat]
           (ExtHost.mkWorld [1%nat] [] [] [])).
Defined.

Lemma unsubscribe_stores_the_registration_witness :
  let '(_, unsubscribe) :=
    ExtHost.registerQueryTransformer 2%nat
      (ExtHost.mkWorld [1%nat] ([] : list nat) [] []) in
  ExtHost.queryTransformers
    (unsubscribe (ExtHost.mkWorld [1%nat; 2%nat; 3%nat] [] [] []))
  = [1%nat; 2%nat].
Proof.
  apply (unsubscribe_stores_the_registration 2%nat 0%nat
           (ExtHost.mkWorld [1%nat] [] [] [])
           (ExtHost.mkWorld [1%nat; 2%nat; 3%nat] [] [] [])).
Defined.
